(** * Neighbor table node: a shallow embedding of [neighbor_node.py]

    The node listens for vehicle beacons on a datagram socket, keeps the
    latest record of every vehicle in a dictionary, stops one second after
    the first accepted beacon (or when the socket goes idle) and prints one
    summary with the number of vehicles and the one nearest to the origin.

    Python objects are modelled by the inductive type [Py.value]; Python
    integers are [Z], Python floats are IEEE binary64 numbers in the
    specification format of the standard library ([spec_float], precision
    53, infinities at exponent 1024); dictionaries are association lists in
    insertion order; exceptions are an explicit result type.

    The run of [main] is a function of the sequence of results of
    [sock.recvfrom] (a datagram or the socket timeout), each datagram with
    the reading that [now_ms()] gives in its round of the loop.
    [json.loads] belongs to the Python library and is a parameter of the
    receiver; [bytes.decode] is modelled by a strict UTF-8 decoder.  The
    square of a float goes through the C library's [pow], whose rounding
    the language does not fix: it is a parameter of the selector. *)

From Stdlib Require Import ZArith NArith List String Ascii Bool Lia SpecFloat.
From Stdlib Require Import Permutation.
From Stdlib.Strings Require Import Byte.
Import ListNotations.

Set Warnings "-register-all".

Local Open Scope Z_scope.
Local Open Scope string_scope.
Local Open Scope list_scope.

(** ** Python values, exceptions and numbers *)

Module Py.

(** The exception classes that the program can meet.  [JSONDecodeError]
    and [UnicodeDecodeError] are both subclasses of [ValueError] in
    Python, but neither is a subclass of the other; [Other] stands for
    any further class a library call may raise (for instance
    [RecursionError]). *)
Inductive exn : Type :=
| ValueError
| KeyError
| TypeError
| IndexError
| OverflowError
| UnicodeDecodeError
| JSONDecodeError
| Other.

Inductive res (A : Type) : Type :=
| Ok (a : A)
| Raise (e : exn).
Arguments Ok {A} a.
Arguments Raise {A} e.

Definition bind {A B : Type} (m : res A) (k : A -> res B) : res B :=
  match m with
  | Ok a => k a
  | Raise e => Raise e
  end.

(** Binary64. *)
Definition prec : Z := 53.
Definition emax : Z := 1024.
Definition float : Type := spec_float.

Definition inf : float := S754_infinity false.
Definition nan : float := S754_nan.

Definition flt (x y : float) : bool := SFltb x y.
Definition fle (x y : float) : bool := SFleb x y.
Definition feq (x y : float) : bool := SFeqb x y.

(** A Python object as [json.loads] builds them, plus tuples (which
    [euclidean_dist_to_origin] also accepts).  Dictionaries have string
    keys and keep insertion order. *)
Inductive value : Type :=
| PyNone
| PyBool (b : bool)
| PyInt (z : Z)
| PyFloat (f : float)
| PyStr (s : string)
| PyList (xs : list value)
| PyTuple (xs : list value)
| PyDict (d : list (string * value)).

Definition dict : Type := list (string * value).

(** [isinstance(x, int)]: [bool] is a subclass of [int]. *)
Definition isinstance_int (x : value) : bool :=
  match x with
  | PyBool _ | PyInt _ => true
  | _ => false
  end.

(** [isinstance(x, (int, float))]. *)
Definition isinstance_int_float (x : value) : bool :=
  match x with
  | PyBool _ | PyInt _ | PyFloat _ => true
  | _ => false
  end.

Definition isinstance_str (x : value) : bool :=
  match x with
  | PyStr _ => true
  | _ => false
  end.

Definition isinstance_dict (x : value) : bool :=
  match x with
  | PyDict _ => true
  | _ => false
  end.

(** [isinstance(x, (list, tuple))]. *)
Definition isinstance_list_tuple (x : value) : bool :=
  match x with
  | PyList _ | PyTuple _ => true
  | _ => false
  end.

(** The elements of a list or tuple. *)
Definition elements (x : value) : list value :=
  match x with
  | PyList xs | PyTuple xs => xs
  | _ => []
  end.

(** Conversion of an integer to a float, as [PyLong_AsDouble]: rounded
    to nearest even, [OverflowError] when the result is out of range. *)
Definition float_of_int (z : Z) : res float :=
  match binary_normalize prec emax z 0 false with
  | S754_infinity _ => Raise OverflowError
  | f => Ok f
  end.

(** What the C library's [pow(x, 2.0)] gives on a finite float [x > 0],
    as CPython reads it: a zero (underflow), a positive finite float, or a
    range error.  Which float it is depends on the C library: [pow] is not
    required to round correctly, so it is a parameter of [x ** 2]. *)
Inductive pow_result : Type :=
| PowZero
| PowFinite (m : positive) (e : Z)
| PowRange.

(** [x ** 2].  On integers (and booleans, which are integers) the result
    is the exact integer.  On floats, as [float_pow] with the exponent 2:
    NaN gives NaN, an infinity plus infinity, a zero plus zero; on every
    other float the C library's [pow] is called on the absolute value and
    a range error becomes [OverflowError]. *)
Definition pow2 (libm_pow2 : positive -> Z -> pow_result) (x : value)
  : res value :=
  match x with
  | PyBool b => Ok (PyInt (Z.b2z b * Z.b2z b))
  | PyInt z => Ok (PyInt (z * z))
  | PyFloat f =>
      match f with
      | S754_nan => Ok (PyFloat S754_nan)
      | S754_infinity _ => Ok (PyFloat (S754_infinity false))
      | S754_zero _ => Ok (PyFloat (S754_zero false))
      | S754_finite _ m e =>
          match libm_pow2 m e with
          | PowZero => Ok (PyFloat (S754_zero false))
          | PowFinite m' e' => Ok (PyFloat (S754_finite false m' e'))
          | PowRange => Raise OverflowError
          end
      end
  | _ => Raise TypeError
  end.

(** The operand of a float operation: floats as they are, integers
    converted. *)
Definition as_float (x : value) : res float :=
  match x with
  | PyBool b => float_of_int (Z.b2z b)
  | PyInt z => float_of_int z
  | PyFloat f => Ok f
  | _ => Raise TypeError
  end.

Definition as_int (x : value) : option Z :=
  match x with
  | PyBool b => Some (Z.b2z b)
  | PyInt z => Some z
  | _ => None
  end.

(** [x + y] on numbers: exact on two integers, a float addition
    otherwise (which does not raise on overflow, it gives an
    infinity). *)
Definition add (x y : value) : res value :=
  match as_int x, as_int y with
  | Some a, Some b => Ok (PyInt (a + b))
  | _, _ =>
      bind (as_float x) (fun fx =>
      bind (as_float y) (fun fy =>
      Ok (PyFloat (SFadd prec emax fx fy))))
  end.

(** [math.sqrt(x)]: the argument is converted to a float; a negative
    argument is a domain error ([ValueError]); NaN gives NaN. *)
Definition math_sqrt (x : value) : res float :=
  bind (as_float x) (fun f =>
    match f with
    | S754_nan => Ok S754_nan
    | S754_infinity true => Raise ValueError
    | S754_finite true _ _ => Raise ValueError
    | _ => Ok (SFsqrt prec emax f)
    end).

(** Dictionary lookup and assignment.  Assignment to a key that is
    present replaces its value in place; a new key goes to the end. *)
Fixpoint dict_get (k : string) (d : dict) : option value :=
  match d with
  | [] => None
  | (k', v) :: d' => if String.eqb k k' then Some v else dict_get k d'
  end.

Fixpoint dict_set (k : string) (v : value) (d : dict) : dict :=
  match d with
  | [] => [(k, v)]
  | (k', v') :: d' =>
      if String.eqb k k' then (k', v) :: d' else (k', v') :: dict_set k v d'
  end.

Definition keys (d : dict) : list string := map fst d.

Definition contains (d : dict) (k : string) : bool :=
  match dict_get k d with
  | Some _ => true
  | None => false
  end.

(** [x[k]] for a string [k]: [KeyError] on a dictionary without the
    key, [TypeError] on every other kind of object. *)
Definition getitem (x : value) (k : string) : res value :=
  match x with
  | PyDict d =>
      match dict_get k d with
      | Some v => Ok v
      | None => Raise KeyError
      end
  | _ => Raise TypeError
  end.

End Py.

Import Py.

Notation "x <- m ;; k" := (Py.bind m (fun x => k))
  (at level 61, m at next level, right associativity).

Section Libm.

(** The C library's [pow(x, 2.0)] on the finite float [m * 2^e]. *)
Variable libm_pow2 : positive -> Z -> pow_result.

(** ** The selector *)

(** [euclidean_dist_to_origin(pos)] *)
Definition euclidean_dist_to_origin (pos : value) : res float :=
  if negb (isinstance_list_tuple pos) || negb (List.length (elements pos) =? 2)%nat
  then Raise ValueError
  else if negb (forallb isinstance_int_float (elements pos))
  then Raise ValueError
  else
    match elements pos with
    | [p0; p1] =>
        a <- pow2 libm_pow2 p0 ;;
        b <- pow2 libm_pow2 p1 ;;
        s <- add a b ;;
        math_sqrt s
    | _ => Raise IndexError
    end.

(** The distance of one stored record: [euclidean_dist_to_origin(data["pos"])]. *)
Definition record_dist (data : value) : res float :=
  pos <- getitem data "pos" ;;
  euclidean_dist_to_origin pos.

(** One round of the [for] loop of [nearest_neighbor]: the state is the
    pair [(nearest_id, min_dist)].  The handler catches [ValueError],
    [KeyError] and [TypeError]; anything else leaves the function. *)
Definition nn_step (acc : option string * float) (item : string * value)
  : res (option string * float) :=
  let '(neighbor_id, data) := item in
  match record_dist data with
  | Ok dist =>
      if flt dist (snd acc) then Ok (Some neighbor_id, dist) else Ok acc
  | Raise ValueError | Raise KeyError | Raise TypeError => Ok acc
  | Raise e => Raise e
  end.

Fixpoint nn_loop (items : dict) (acc : option string * float)
  : res (option string * float) :=
  match items with
  | [] => Ok acc
  | item :: rest =>
      acc' <- nn_step acc item ;;
      nn_loop rest acc'
  end.

(** [nearest_neighbor(neighbors)] *)
Definition nearest_neighbor (neighbors : dict) : res (option (string * float)) :=
  match neighbors with
  | [] => Ok None
  | _ =>
      acc <- nn_loop neighbors (None, inf) ;;
      match acc with
      | (None, _) => Ok None
      | (Some nearest_id, min_dist) => Ok (Some (nearest_id, min_dist))
      end
  end.

(** The record that the receiver stores for an accepted message. *)
Definition mk_record (pos speed ts : value) : value :=
  PyDict [("pos", pos); ("speed", speed); ("last_ts", ts)].

(** ** The receiver *)

Definition COLLECT_WINDOW_MS : Z := 1000.

(** A datagram is a sequence of bytes; a decoded text is the sequence of
    its code points. *)
Definition bytes : Type := list byte.
Definition text : Type := list N.

Definition continuation (b : byte) : bool :=
  ((128 <=? Byte.to_N b) && (Byte.to_N b <=? 191))%N.

Definition between (lo hi : N) (b : byte) : bool :=
  ((lo <=? Byte.to_N b) && (Byte.to_N b <=? hi))%N.

Definition low_bits (b : byte) (m : N) : N := N.land (Byte.to_N b) m.

(** Strict UTF-8, as the [utf-8] codec with [errors="strict"]: shortest
    form only, no surrogates, nothing above U+10FFFF. *)
Fixpoint utf8 (bs : bytes) : option text :=
  match bs with
  | [] => Some []
  | b0 :: r0 =>
      if between 0 127 b0 then
        option_map (cons (Byte.to_N b0)) (utf8 r0)
      else if between 194 223 b0 then
        match r0 with
        | b1 :: r1 =>
            if continuation b1
            then option_map
                   (cons (N.shiftl (low_bits b0 31) 6 + low_bits b1 63)%N)
                   (utf8 r1)
            else None
        | _ => None
        end
      else if between 224 239 b0 then
        match r0 with
        | b1 :: b2 :: r2 =>
            if between (if between 224 224 b0 then 160 else 128)
                       (if between 237 237 b0 then 159 else 191) b1
               && continuation b2
            then option_map
                   (cons (N.shiftl (low_bits b0 15) 12
                          + N.shiftl (low_bits b1 63) 6 + low_bits b2 63)%N)
                   (utf8 r2)
            else None
        | _ => None
        end
      else if between 240 244 b0 then
        match r0 with
        | b1 :: b2 :: b3 :: r3 =>
            if between (if between 240 240 b0 then 144 else 128)
                       (if between 244 244 b0 then 143 else 191) b1
               && continuation b2 && continuation b3
            then option_map
                   (cons (N.shiftl (low_bits b0 7) 18
                          + N.shiftl (low_bits b1 63) 12
                          + N.shiftl (low_bits b2 63) 6 + low_bits b3 63)%N)
                   (utf8 r3)
            else None
        | _ => None
        end
      else None
  end.

(** [data.decode("utf-8")] *)
Definition decode (data : bytes) : res text :=
  match utf8 data with
  | Some t => Ok t
  | None => Raise UnicodeDecodeError
  end.

(** What one call of [sock.recvfrom] gives: the socket timeout, or a
    datagram.  [now] is the reading [now_ms()] gives in that round of the
    loop (the program reads the clock only after it has stored a
    beacon). *)
Inductive event : Type :=
| RecvTimeout
| RecvData (data : bytes) (now : Z).

Record state : Type := mkState {
  neighbors : dict;
  first_ts : option Z
}.

Definition initial : state := {| neighbors := []; first_ts := None |}.

(** The end of one round of the [while] loop. *)
Inductive control : Type :=
| Continue (st : state)
| Break (st : state)
| Propagate (e : exn).

Definition required_keys : list string := ["id"; "pos"; "speed"; "ts"].

(** The validation block of [main]: the fields of an accepted message,
    [None] where the program says [continue]. *)
Definition validate (msg : value) : option (string * value * value * value) :=
  match msg with
  | PyDict m =>
      if negb (forallb (contains m) required_keys) then None
      else
        match dict_get "id" m, dict_get "pos" m,
              dict_get "speed" m, dict_get "ts" m with
        | Some id, Some pos, Some speed, Some ts =>
            if negb (isinstance_str id) then None
            else if negb (isinstance_list_tuple pos)
                    || negb (List.length (elements pos) =? 2)%nat then None
            else if negb (forallb isinstance_int_float (elements pos)) then None
            else if negb (isinstance_int_float speed) then None
            else if negb (isinstance_int ts) then None
            else
              match id with
              | PyStr key => Some (key, pos, speed, ts)
              | _ => None
              end
        | _, _, _, _ => None
        end
  | _ => None
  end.

(** The storage and timer blocks of [main]. *)
Definition store (id : string) (pos speed ts : value) (now : Z) (st : state)
  : control :=
  let table := dict_set id (mk_record pos speed ts) (neighbors st) in
  let first :=
    match first_ts st with
    | None => now
    | Some t => t
    end in
  let st' := {| neighbors := table; first_ts := Some first |} in
  if now - first >=? COLLECT_WINDOW_MS then Break st' else Continue st'.

(** The summary that [main] prints. *)
Record summary : Type := mkSummary {
  topic : string;
  count : Z;
  nearest : option (string * float);
  ts : Z
}.

(** How a run of [main] over a finite sequence of receive events ends:
    the summary is printed and the exit status returned, or an exception
    leaves [main], or the program is still blocked in [recvfrom]. *)
Inductive outcome : Type :=
| Printed (s : summary) (status : Z)
| Crashed (e : exn)
| Waiting (st : state).

Inductive loop_end : Type :=
| Exited (st : state) (unread : list event)
| Pending (st : state)
| Failed (e : exn).

Section Receiver.

(** [json.loads], from the Python standard library. *)
Variable json_loads : text -> res value.

(** [json.loads(data.decode("utf-8"))] *)
Definition parse (data : bytes) : res value :=
  t <- decode data ;;
  json_loads t.

(** One round of the [while True] loop. *)
Definition iteration (ev : event) (st : state) : control :=
  match ev with
  | RecvTimeout => Break st
  | RecvData data now =>
      match parse data with
      | Raise JSONDecodeError => Continue st
      | Raise e => Propagate e
      | Ok msg =>
          match validate msg with
          | None => Continue st
          | Some (id, pos, speed, ts) => store id pos speed ts now st
          end
      end
  end.

Fixpoint main_loop (evs : list event) (st : state) : loop_end :=
  match evs with
  | [] => Pending st
  | ev :: rest =>
      match iteration ev st with
      | Continue st' => main_loop rest st'
      | Break st' => Exited st' rest
      | Propagate e => Failed e
      end
  end.

(** [main()]: [final_now] is the clock reading taken for the summary. *)
Definition main (evs : list event) (final_now : Z) : outcome :=
  match main_loop evs initial with
  | Failed e => Crashed e
  | Pending st => Waiting st
  | Exited st _ =>
      match nearest_neighbor (neighbors st) with
      | Raise e => Crashed e
      | Ok nn =>
          Printed {| topic := "/v2x/neighbor_summary";
                     count := Z.of_nat (List.length (neighbors st));
                     nearest := nn;
                     ts := final_now |} 0
      end
  end.

(** The id of the beacon an event carries, when the program accepts it. *)
Definition accepted (ev : event) : option string :=
  match ev with
  | RecvTimeout => None
  | RecvData data _ =>
      match parse data with
      | Ok msg =>
          match validate msg with
          | Some (id, _, _, _) => Some id
          | None => None
          end
      | Raise _ => None
      end
  end.

Fixpoint accepted_ids (evs : list event) : list string :=
  match evs with
  | [] => []
  | ev :: rest =>
      match accepted ev with
      | Some id => id :: accepted_ids rest
      | None => accepted_ids rest
      end
  end.

End Receiver.

(** ** Predicates of the statements

    The two guards of [euclidean_dist_to_origin] as one test. *)
Definition numeric_pair (pos : value) : bool :=
  isinstance_list_tuple pos
  && (List.length (elements pos) =? 2)%nat
  && forallb isinstance_int_float (elements pos).

(** What the loop has found when it ends normally: either nothing was
    below the initial infinity, or the winner is the first record of its
    distance and no record is nearer. *)
Definition nn_found (items : dict) (acc : option string * float) : Prop :=
  match acc with
  | (None, m) =>
      m = inf /\
      forall k data d, In (k, data) items -> record_dist data = Ok d ->
                       flt d inf = false
  | (Some k, m) =>
      exists l1 data l2,
        items = l1 ++ (k, data) :: l2 /\
        record_dist data = Ok m /\
        flt m inf = true /\
        (forall k' data' d, In (k', data') l1 -> record_dist data' = Ok d ->
                            fle d m = false) /\
        (forall k' data' d, In (k', data') l2 -> record_dist data' = Ok d ->
                            flt d m = false)
  end.


(** The two states a call of [store] can leave, and the state in both. *)
Definition state_after (c : control) : option state :=
  match c with
  | Continue st | Break st => Some st
  | Propagate _ => None
  end.

Definition stored (id : string) (pos speed ts : value) (now : Z) (st : state)
  : state :=
  {| neighbors := dict_set id (mk_record pos speed ts) (neighbors st);
     first_ts := Some match first_ts st with
                      | None => now
                      | Some t => t
                      end |}.


Definition json_number (v : value) : bool :=
  match v with
  | PyInt _ | PyFloat _ => true
  | _ => false
  end.

Definition json_integer (v : value) : bool :=
  match v with
  | PyInt _ => true
  | _ => false
  end.


(** ** Sample data *)

Definition ipos (x y : Z) : value := PyList [PyInt x; PyInt y].

Definition table_ABC : dict :=
  [ ("A", mk_record (ipos 3 4) (PyInt 12) (PyInt 1700000000000));
    ("B", mk_record (ipos 1 1) (PyInt 9) (PyInt 1700000000100));
    ("C", mk_record (ipos (-5) 0) (PyInt 30) (PyInt 1700000000200)) ].

(** The binary64 numbers 5.0 and 1.4142135623730951. *)
Definition five : float := S754_finite false 5629499534213120 (-50).
Definition sqrt_two : float := S754_finite false 6369051672525773 (-52).

(** A message as [json.loads] builds it from a beacon. *)
Definition beacon (id : string) (pos speed ts : value) : value :=
  PyDict [("id", PyStr id); ("pos", pos); ("speed", speed); ("ts", ts)].

(** The wire text of a beacon whose fields are given as JSON text. *)
Definition quoted (s : string) : string :=
  String (ascii_of_nat 34) (s ++ String (ascii_of_nat 34) EmptyString)%string.

Definition wire (id pos speed ts : string) : bytes :=
  list_byte_of_string
    ("{" ++ quoted "id" ++ ":" ++ quoted id ++ ","
         ++ quoted "pos" ++ ":" ++ pos ++ ","
         ++ quoted "speed" ++ ":" ++ speed ++ ","
         ++ quoted "ts" ++ ":" ++ ts ++ "}")%string.

Fixpoint text_eqb (a b : text) : bool :=
  match a, b with
  | [], [] => true
  | x :: a', y :: b' => N.eqb x y && text_eqb a' b'
  | _, _ => false
  end.

Definition text_of (data : bytes) : text := map Byte.to_N data.

Definition wire_1 : bytes := wire "veh_1" "[3,4]" "12.5" "1700000000000".
Definition wire_2 : bytes := wire "veh_1" "[1,1]" "9" "1700000000100".
Definition wire_3 : bytes := wire "veh_2" "[true,false]" "true" "false".
Definition wire_4 : bytes := wire "veh_3" "[3,4]" "12.5" "1700000000000.5".

(** 12.5 and 1700000000000.5 in binary64. *)
Definition twelve_and_half : float := S754_finite false 7036874417766400 (-49).
Definition stamp_and_half : float := S754_finite false 6963200000002048 (-12).

Definition msg_1 : value :=
  beacon "veh_1" (ipos 3 4) (PyFloat twelve_and_half) (PyInt 1700000000000).
Definition msg_2 : value :=
  beacon "veh_1" (ipos 1 1) (PyInt 9) (PyInt 1700000000100).
Definition msg_3 : value :=
  beacon "veh_2" (PyList [PyBool true; PyBool false]) (PyBool true)
         (PyBool false).
Definition msg_4 : value :=
  beacon "veh_3" (ipos 3 4) (PyFloat twelve_and_half) (PyFloat stamp_and_half).

(** The values of [json.loads] on the sample texts; every other text is
    taken as one it refuses.  The theorems below hold for every function
    in the place of [json.loads]; this one instantiates them. *)
Definition sample_loads (t : text) : res value :=
  if text_eqb t (text_of wire_1) then Ok msg_1
  else if text_eqb t (text_of wire_2) then Ok msg_2
  else if text_eqb t (text_of wire_3) then Ok msg_3
  else if text_eqb t (text_of wire_4) then Ok msg_4
  else Raise JSONDecodeError.

(** One function in the place of the C library's [pow(x, 2.0)]: the
    correctly rounded square.  The theorems hold for every function in
    that place; this one instantiates them. *)
Definition rounded_pow2 (m : positive) (e : Z) : pow_result :=
  match SFmul prec emax (S754_finite false m e) (S754_finite false m e) with
  | S754_zero _ => PowZero
  | S754_finite _ m' e' => PowFinite m' e'
  | _ => PowRange
  end.

(** Two positions out of the range of finite distances. *)
Definition huge : value := ipos (10 ^ 200) 0.
Definition far : value := PyList [PyFloat inf; PyInt 0].

(** ** Further predicates and functions of the statements *)

(** A float that is not below zero: a zero, a positive number, plus
    infinity or NaN. *)
Definition not_negative (f : float) : bool :=
  match f with
  | S754_finite true _ _ | S754_infinity true => false
  | _ => true
  end.

Definition not_negative_number (v : value) : bool :=
  match v with
  | PyInt z => (0 <=? z)%Z
  | PyFloat f => not_negative f
  | _ => false
  end.

(** [-x] on a number. *)
Definition neg (v : value) : value :=
  match v with
  | PyBool b => PyInt (- Z.b2z b)
  | PyInt z => PyInt (- z)
  | PyFloat f => PyFloat (SFopp f)
  | _ => v
  end.

(** ** What a run has accepted *)

Section Runs.

Variable json_loads : text -> res value.

(** The id and the record of the beacon an event carries, when the
    program accepts it. *)
Definition accepted_record (ev : event) : option (string * value) :=
  match ev with
  | RecvTimeout => None
  | RecvData data _ =>
      match parse json_loads data with
      | Ok msg =>
          match validate msg with
          | Some (id, pos, speed, ts) => Some (id, mk_record pos speed ts)
          | None => None
          end
      | Raise _ => None
      end
  end.

(** The record of the last accepted beacon of [id] among the events. *)
Definition latest (id : string) (evs : list event) : option value :=
  fold_left
    (fun found ev =>
       match accepted_record ev with
       | Some (id', record) => if String.eqb id id' then Some record else found
       | None => found
       end)
    evs None.

(** The accepted ids in the order of their first beacons. *)
Definition first_seen (evs : list event) : list string :=
  fold_left
    (fun seen ev =>
       match accepted_record ev with
       | Some (id, _) => if in_dec string_dec id seen then seen else seen ++ [id]
       | None => seen
       end)
    evs [].

(** The clock reading of the round of the first accepted beacon. *)
Definition first_accepted_time (evs : list event) : option Z :=
  fold_left
    (fun found ev =>
       match found, ev, accepted_record ev with
       | None, RecvData _ now, Some _ => Some now
       | _, _, _ => found
       end)
    evs None.

(** A datagram that the program drops: [json.loads] refuses its text, or
    its message fails the validation block. *)
Definition dropped (ev : event) : Prop :=
  exists data now,
    ev = RecvData data now /\
    (parse json_loads data = Raise JSONDecodeError \/
     exists msg, parse json_loads data = Ok msg /\ validate msg = None).

End Runs.

(** ** The order of binary64 numbers *)

Section FloatOrder.

Ltac cmp_cases :=
  repeat match goal with
  | H : context [Z.compare ?a ?b] |- _ => destruct (Z.compare_spec a b)
  | |- context [Z.compare ?a ?b] => destruct (Z.compare_spec a b)
  | H : context [Pos.compare_cont Eq ?a ?b] |- _ =>
      change (Pos.compare_cont Eq a b) with (Pos.compare a b) in H;
      destruct (Pos.compare_spec a b)
  | |- context [Pos.compare_cont Eq ?a ?b] =>
      change (Pos.compare_cont Eq a b) with (Pos.compare a b);
      destruct (Pos.compare_spec a b)
  end.

Ltac float_order :=
  unfold flt, fle, feq, SFltb, SFleb, SFeqb, SFcompare, inf in *;
  repeat match goal with
  | x : float |- _ => destruct x as [[]|[]| |[] ? ?]
  end;
  simpl in *; try congruence; try reflexivity;
  cmp_cases; simpl in *; subst; try congruence; try reflexivity; try lia.

Lemma flt_fle_false (a b : float) : flt a b = true -> fle b a = false.
Proof. intros H. float_order. Qed.

Lemma fle_flt_false (a b : float) : fle a b = false -> flt a b = false.
Proof. intros H. float_order. Qed.

Lemma flt_below_inf (a b : float) : flt a b = true -> flt a inf = true.
Proof. intros H. float_order. Qed.

Lemma flt_pushes_up (d m d' : float) :
  flt d m = true -> flt d' m = false -> fle d' d = false.
Proof. intros H1 H2. float_order. Qed.

Lemma flt_trans (a b c : float) :
  flt a b = true -> flt b c = true -> flt a c = true.
Proof. intros H1 H2. float_order. Qed.

Lemma flt_irrefl (a : float) : flt a a = false.
Proof. float_order. Qed.

Lemma flt_neither_feq (a b : float) :
  flt a inf = true -> flt b inf = true ->
  flt a b = false -> flt b a = false -> feq a b = true.
Proof. intros H1 H2 H3 H4. float_order. Qed.

End FloatOrder.

(** ** The selector: what the loop computes *)

Lemma nn_loop_app (l1 l2 : dict) (acc : option string * float) :
  nn_loop (l1 ++ l2) acc = (acc' <- nn_loop l1 acc ;; nn_loop l2 acc').
Proof.
  revert acc; induction l1 as [|x l1 IH]; intros acc; simpl; [reflexivity|].
  destruct (nn_step acc x) as [acc'|e]; simpl; [apply IH | reflexivity].
Qed.

Lemma euclidean_invalid (pos : value) :
  numeric_pair pos = false -> euclidean_dist_to_origin pos = Raise ValueError.
Proof.
  unfold numeric_pair, euclidean_dist_to_origin.
  destruct (isinstance_list_tuple pos); simpl; [|reflexivity].
  destruct (List.length (elements pos) =? 2)%nat; simpl; [|reflexivity].
  intros ->. reflexivity.
Qed.

Lemma euclidean_valid (pos : value) :
  numeric_pair pos = true ->
  exists p0 p1,
    elements pos = [p0; p1] /\
    isinstance_int_float p0 = true /\ isinstance_int_float p1 = true /\
    euclidean_dist_to_origin pos =
      (a <- pow2 libm_pow2 p0 ;;
       b <- pow2 libm_pow2 p1 ;;
       s <- add a b ;;
       math_sqrt s).
Proof.
  unfold numeric_pair, euclidean_dist_to_origin.
  rewrite !andb_true_iff. intros [[Hseq Hlen] Hall].
  rewrite Hseq, Hlen, Hall; simpl.
  apply Nat.eqb_eq in Hlen.
  destruct (elements pos) as [|p0 [|p1 [|p2 r]]]; try discriminate.
  simpl in Hall. rewrite !andb_true_iff in Hall.
  exists p0, p1. tauto.
Qed.

(** The exceptions that the distance of a record can raise. *)
Lemma euclidean_raises (pos : value) (e : exn) :
  euclidean_dist_to_origin pos = Raise e -> e = ValueError \/ e = OverflowError.
Proof.
  destruct (numeric_pair pos) eqn:Hp.
  - destruct (euclidean_valid pos Hp) as (p0 & p1 & _ & H0 & H1 & ->).
    destruct p0, p1; try discriminate; clear H0 H1;
      unfold pow2, add, math_sqrt, as_float, float_of_int; simpl;
      repeat match goal with
      | |- context [if ?c then _ else _] => destruct c; simpl
      | |- context [match ?x with _ => _ end] => destruct x; simpl
      end; intros [= <-]; tauto.
  - rewrite (euclidean_invalid pos Hp). intros [= <-]; tauto.
Qed.

Lemma record_dist_raises (data : value) (e : exn) :
  record_dist data = Raise e ->
  e = KeyError \/ e = TypeError \/ e = ValueError \/ e = OverflowError.
Proof.
  unfold record_dist, getitem.
  destruct data as [| | | | | |xs|d]; simpl; try (intros [= <-]; tauto).
  destruct (dict_get "pos" d) as [pos|]; simpl; [|intros [= <-]; tauto].
  intros H. apply euclidean_raises in H. tauto.
Qed.

(** One round of the selector loop, by the outcome of the distance. *)
Lemma nn_step_ok (acc : option string * float) (k : string) (data : value)
      (d : float) :
  record_dist data = Ok d ->
  nn_step acc (k, data) = Ok (if flt d (snd acc) then (Some k, d) else acc).
Proof.
  unfold nn_step. intros ->. destruct (flt d (snd acc)); reflexivity.
Qed.

Lemma nn_step_skip (acc : option string * float) (k : string) (data : value)
      (e : exn) :
  record_dist data = Raise e -> e <> OverflowError ->
  nn_step acc (k, data) = Ok acc.
Proof.
  unfold nn_step. intros H Hne. rewrite H.
  destruct (record_dist_raises _ _ H) as [->|[->|[->| ->]]];
    try reflexivity; congruence.
Qed.

Lemma nn_step_overflow (acc : option string * float) (k : string)
      (data : value) :
  record_dist data = Raise OverflowError ->
  nn_step acc (k, data) = Raise OverflowError.
Proof. unfold nn_step. intros ->. reflexivity. Qed.

(** The selector loop raises nothing but [OverflowError], and it raises
    exactly when the distance of some record does. *)
Lemma nn_loop_raises (items : dict) (acc : option string * float) (e : exn) :
  nn_loop items acc = Raise e ->
  e = OverflowError /\
  exists k data, In (k, data) items /\ record_dist data = Raise OverflowError.
Proof.
  revert acc; induction items as [|[k data] items IH]; intros acc;
    cbn [nn_loop]; [discriminate|].
  destruct (record_dist data) as [d|e'] eqn:Hd.
  - rewrite (nn_step_ok _ _ _ _ Hd); simpl. intros H.
    destruct (IH _ H) as (-> & k' & data' & Hin & Hr).
    split; [reflexivity|]. exists k', data'. auto.
  - destruct (record_dist_raises _ _ Hd) as [->|[->|[->| ->]]];
      try (rewrite (nn_step_skip _ _ _ _ Hd) by discriminate; simpl; intros H;
           destruct (IH _ H) as (-> & k' & data' & Hin & Hr);
           split; [reflexivity|]; exists k', data'; auto).
    rewrite (nn_step_overflow _ _ _ Hd); simpl. intros [= <-].
    split; [reflexivity|]. exists k, data. auto.
Qed.

Lemma nn_loop_returns (items : dict) (acc : option string * float) :
  (forall k data, In (k, data) items ->
                  record_dist data <> Raise OverflowError) ->
  exists acc', nn_loop items acc = Ok acc'.
Proof.
  intros H. destruct (nn_loop items acc) as [acc'|e] eqn:Hl; [eauto|].
  destruct (nn_loop_raises _ _ _ Hl) as (_ & k & data & Hin & Hr).
  exfalso. exact (H k data Hin Hr).
Qed.

Lemma nn_loop_found (items : dict) (acc : option string * float) :
  nn_loop items (None, inf) = Ok acc -> nn_found items acc.
Proof.
  revert acc; induction items as [|[k data] items IH] using rev_ind;
    intros acc.
  - simpl. intros [= <-]. simpl. split; [reflexivity|]. intros ? ? ? [].
  - rewrite nn_loop_app. destruct (nn_loop items (None, inf)) as [a|e] eqn:Hl;
      cbn [nn_loop bind]; [|discriminate].
    specialize (IH a eq_refl).
    destruct (nn_step a (k, data)) as [a'|e] eqn:Hs; cbn [bind]; [|discriminate].
    intros [= <-].
    destruct (record_dist data) as [d|e] eqn:Hd.
    + rewrite (nn_step_ok _ _ _ _ Hd) in Hs. injection Hs as <-.
      destruct a as [[w|] m]; simpl in *.
      * destruct IH as (l1 & dataw & l2 & -> & Hw & Hinf & Hbefore & Hafter).
        destruct (flt d m) eqn:Hlt.
        -- exists (l1 ++ (w, dataw) :: l2), data, [].
           repeat split; auto.
           ++ eapply flt_below_inf; eauto.
           ++ intros k' data' d' Hin Hd'.
              apply in_app_or in Hin. destruct Hin as [Hin|[Heq|Hin]].
              ** eapply flt_pushes_up; eauto.
                 apply fle_flt_false. eauto.
              ** injection Heq as <- <-.
                 assert (d' = m) by congruence. subst d'.
                 apply flt_fle_false; assumption.
              ** eapply flt_pushes_up; eauto.
           ++ intros ? ? ? [].
        -- exists l1, dataw, (l2 ++ [(k, data)]).
           rewrite <- app_assoc. simpl. repeat split; auto.
           intros k' data' d' Hin Hd'.
           apply in_app_or in Hin. destruct Hin as [Hin|[Heq|[]]]; eauto.
           injection Heq as <- <-. congruence.
      * destruct IH as [-> Hnone].
        destruct (flt d inf) eqn:Hlt.
        -- exists items, data, []. repeat split; auto.
           ++ intros k' data' d' Hin Hd'.
              eapply flt_pushes_up; eauto.
           ++ intros ? ? ? [].
        -- split; [reflexivity|].
           intros k' data' d' Hin Hd'.
           apply in_app_or in Hin. destruct Hin as [Hin|[Heq|[]]]; eauto.
           injection Heq as <- <-. congruence.
    + assert (Hne : e <> OverflowError).
      { intros ->. rewrite (nn_step_overflow _ _ _ Hd) in Hs. discriminate. }
      rewrite (nn_step_skip _ _ _ _ Hd Hne) in Hs. injection Hs as <-.
      destruct a as [[w|] m]; simpl in *.
      * destruct IH as (l1 & dataw & l2 & -> & Hw & Hinf & Hbefore & Hafter).
        exists l1, dataw, (l2 ++ [(k, data)]).
        rewrite <- app_assoc. simpl. repeat split; auto.
        intros k' data' d' Hin Hd'.
        apply in_app_or in Hin. destruct Hin as [Hin|[Heq|[]]]; eauto.
        injection Heq as <- <-. congruence.
      * destruct IH as [-> Hnone]. split; [reflexivity|].
        intros k' data' d' Hin Hd'.
        apply in_app_or in Hin. destruct Hin as [Hin|[Heq|[]]]; eauto.
        injection Heq as <- <-. congruence.
Qed.

(** The emptiness test at the head of [nearest_neighbor] changes nothing:
    the function is the loop followed by the final test. *)
Lemma nearest_neighbor_loop (t : dict) :
  nearest_neighbor t =
  (acc <- nn_loop t (None, inf) ;;
   Ok match acc with
      | (None, _) => None
      | (Some k, m) => Some (k, m)
      end).
Proof.
  destruct t as [|x t]; [reflexivity|].
  unfold nearest_neighbor.
  destruct (nn_loop (x :: t) (None, inf)) as [[[k|] m]|e]; reflexivity.
Qed.

(** When the selector returns a vehicle, its distance is the distance of
    that vehicle's record, no record is nearer, and no record before it in
    the table is as near. *)
Lemma nearest_neighbor_some (t : dict) (k : string) (m : float) :
  nearest_neighbor t = Ok (Some (k, m)) ->
  exists l1 data l2,
    t = l1 ++ (k, data) :: l2 /\
    record_dist data = Ok m /\
    flt m inf = true /\
    (forall k' data' d, In (k', data') l1 -> record_dist data' = Ok d ->
                        fle d m = false) /\
    (forall k' data' d, In (k', data') t -> record_dist data' = Ok d ->
                        flt d m = false).
Proof.
  rewrite nearest_neighbor_loop.
  destruct (nn_loop t (None, inf)) as [[[w|] m']|e] eqn:Hl; cbn [bind];
    try discriminate.
  intros [= -> ->].
  destruct (nn_loop_found _ _ Hl) as (l1 & data & l2 & -> & Hm & Hinf & Hb & Ha).
  exists l1, data, l2. repeat split; auto.
  intros k' data' d Hin Hd.
  apply in_app_or in Hin. destruct Hin as [Hin|[Heq|Hin]]; eauto.
  - apply fle_flt_false. eauto.
  - injection Heq as <- <-. assert (d = m) by congruence. subst.
    apply flt_irrefl.
Qed.

(** The selector returns "no neighbor" exactly when no distance raises
    [OverflowError] and no record has a distance below plus infinity. *)
Lemma nearest_neighbor_none (t : dict) :
  nearest_neighbor t = Ok None <->
  (forall k data, In (k, data) t -> record_dist data <> Raise OverflowError) /\
  (forall k data d, In (k, data) t -> record_dist data = Ok d ->
                    flt d inf = false).
Proof.
  rewrite nearest_neighbor_loop. split.
  - destruct (nn_loop t (None, inf)) as [[[w|] m']|e] eqn:Hl; cbn [bind];
      try discriminate.
    intros _. split.
    + intros k data Hin Hr.
      assert (Hsplit := in_split _ _ Hin). destruct Hsplit as (l1 & l2 & ->).
      rewrite nn_loop_app in Hl.
      destruct (nn_loop l1 (None, inf)) as [a|e]; cbn [bind nn_loop] in Hl;
        [|discriminate].
      rewrite (nn_step_overflow _ _ _ Hr) in Hl. discriminate.
    + destruct (nn_loop_found _ _ Hl) as [_ H]. exact H.
  - intros [Hno Hinf].
    destruct (nn_loop_returns t (None, inf) Hno) as [[[w|] m] Hl];
      rewrite Hl; cbn [bind]; [|reflexivity].
    destruct (nn_loop_found _ _ Hl) as (l1 & data & l2 & -> & Hm & Hlt & _).
    rewrite (Hinf w data m) in Hlt; [discriminate| |assumption].
    apply in_or_app. right. left. reflexivity.
Qed.

(** The selector raises exactly when the distance of some record raises
    [OverflowError], and then it raises that. *)
Lemma nearest_neighbor_raises (t : dict) (e : exn) :
  nearest_neighbor t = Raise e <->
  e = OverflowError /\
  exists k data, In (k, data) t /\ record_dist data = Raise OverflowError.
Proof.
  rewrite nearest_neighbor_loop. split.
  - destruct (nn_loop t (None, inf)) as [a|e'] eqn:Hl; cbn [bind];
      [discriminate|].
    intros [= ->]. eapply nn_loop_raises; eauto.
  - intros (-> & k & data & Hin & Hr).
    destruct (nn_loop t (None, inf)) as [a|e'] eqn:Hl; cbn [bind].
    + exfalso. destruct (in_split _ _ Hin) as (l1 & l2 & ->).
      rewrite nn_loop_app in Hl.
      destruct (nn_loop l1 (None, inf)) as [a'|e']; cbn [bind nn_loop] in Hl;
        [|discriminate].
      rewrite (nn_step_overflow _ _ _ Hr) in Hl. discriminate.
    + destruct (nn_loop_raises _ _ _ Hl) as [-> _]. reflexivity.
Qed.

(** With no overflow and a record at a distance below infinity, the
    selector returns a vehicle. *)
Lemma nearest_neighbor_finds (t : dict) (k : string) (data : value) (d : float) :
  (forall k' data', In (k', data') t ->
                    record_dist data' <> Raise OverflowError) ->
  In (k, data) t -> record_dist data = Ok d -> flt d inf = true ->
  exists w m, nearest_neighbor t = Ok (Some (w, m)) /\ flt d m = false.
Proof.
  intros Hno Hin Hd Hlt.
  destruct (nearest_neighbor t) as [[[w m]|]|e] eqn:Hn.
  - exists w, m. split; [reflexivity|].
    destruct (nearest_neighbor_some _ _ _ Hn) as (_ & _ & _ & _ & _ & _ & _ & H).
    eauto.
  - apply nearest_neighbor_none in Hn. destruct Hn as [_ Hn].
    rewrite (Hn _ _ _ Hin Hd) in Hlt. discriminate.
  - apply nearest_neighbor_raises in Hn.
    destruct Hn as (_ & k' & data' & Hin' & Hr). exfalso. eapply Hno; eauto.
Qed.



(** ** Dictionaries *)

Lemma dict_get_set_same (k : string) (v : value) (d : dict) :
  dict_get k (dict_set k v d) = Some v.
Proof.
  induction d as [|[k' v'] d IH]; simpl.
  - rewrite String.eqb_refl. reflexivity.
  - destruct (String.eqb k k') eqn:E; simpl; rewrite E; auto.
Qed.

Lemma dict_get_set_other (k k' : string) (v : value) (d : dict) :
  k <> k' -> dict_get k' (dict_set k v d) = dict_get k' d.
Proof.
  intros Hne. induction d as [|[k0 v0] d IH]; simpl.
  - destruct (String.eqb_spec k' k); [congruence|reflexivity].
  - destruct (String.eqb_spec k k0); simpl.
    + subst k0. destruct (String.eqb_spec k' k); [congruence|reflexivity].
    + destruct (String.eqb k' k0); auto.
Qed.

Lemma keys_set_present (k : string) (v : value) (d : dict) :
  In k (keys d) -> keys (dict_set k v d) = keys d.
Proof.
  induction d as [|[k' v'] d IH]; simpl; [intros []|].
  destruct (String.eqb_spec k k'); simpl; [reflexivity|].
  intros [Heq|Hin]; [congruence|]. f_equal. exact (IH Hin).
Qed.

Lemma keys_set_absent (k : string) (v : value) (d : dict) :
  ~ In k (keys d) -> keys (dict_set k v d) = keys d ++ [k].
Proof.
  induction d as [|[k' v'] d IH]; simpl; [reflexivity|].
  intros Hnot. destruct (String.eqb_spec k k'); simpl.
  - exfalso. apply Hnot. left. congruence.
  - f_equal. apply IH. tauto.
Qed.

Lemma keys_set_cases (k : string) (v : value) (d : dict) :
  (In k (keys d) /\ keys (dict_set k v d) = keys d) \/
  (~ In k (keys d) /\ keys (dict_set k v d) = keys d ++ [k]).
Proof.
  destruct (in_dec string_dec k (keys d)) as [Hin|Hnot].
  - left. split; [assumption|]. apply keys_set_present; assumption.
  - right. split; [assumption|]. apply keys_set_absent; assumption.
Qed.

Lemma keys_set_in (k k' : string) (v : value) (d : dict) :
  In k' (keys (dict_set k v d)) <-> k' = k \/ In k' (keys d).
Proof.
  destruct (keys_set_cases k v d) as [[Hin ->]|[Hnot ->]].
  - split; [tauto|]. intros [->|H]; assumption.
  - rewrite in_app_iff. simpl. split.
    + intros [H|[H|[]]]; auto.
    + intros [->|H]; auto.
Qed.

Lemma keys_set_nodup (k : string) (v : value) (d : dict) :
  NoDup (keys d) -> NoDup (keys (dict_set k v d)).
Proof.
  intros Hnd. destruct (keys_set_cases k v d) as [[Hin ->]|[Hnot ->]];
    [assumption|].
  apply NoDup_app; [assumption|repeat constructor; intros []|].
  intros a Ha [<-|[]]. contradiction.
Qed.

Lemma dict_get_in_keys (k : string) (d : dict) :
  In k (keys d) <-> dict_get k d <> None.
Proof.
  induction d as [|[k' v'] d IH]; simpl; [tauto|].
  destruct (String.eqb_spec k k').
  - split; [discriminate|]. intros _. left. congruence.
  - rewrite <- IH. split; [intros [H|H]; [congruence|assumption]|tauto].
Qed.

Lemma contains_in_keys (k : string) (d : dict) :
  contains d k = true <-> In k (keys d).
Proof.
  rewrite dict_get_in_keys. unfold contains.
  destruct (dict_get k d); split; congruence.
Qed.

(** ** The receiver: validation and storage *)

(** What the validation block accepts, in the terms of its own tests. *)
Lemma validate_some (msg : value) (key : string) (pos speed ts : value) :
  validate msg = Some (key, pos, speed, ts) <->
  exists m,
    msg = PyDict m /\
    dict_get "id" m = Some (PyStr key) /\
    dict_get "pos" m = Some pos /\ numeric_pair pos = true /\
    dict_get "speed" m = Some speed /\ isinstance_int_float speed = true /\
    dict_get "ts" m = Some ts /\ isinstance_int ts = true.
Proof.
  unfold validate, numeric_pair, required_keys, contains. split.
  - destruct msg as [| | | | | | |m]; try discriminate.
    cbn [forallb].
    destruct (dict_get "id" m) as [id|] eqn:Eid; [|discriminate].
    destruct (dict_get "pos" m) as [pos'|] eqn:Epos; [|discriminate].
    destruct (dict_get "speed" m) as [speed'|] eqn:Espeed; [|discriminate].
    destruct (dict_get "ts" m) as [ts'|] eqn:Ets; [|discriminate].
    cbn [andb negb].
    destruct (isinstance_str id) eqn:Hid; cbn [negb]; [|discriminate].
    destruct (isinstance_list_tuple pos') eqn:Hseq; cbn [negb orb andb];
      [|discriminate].
    destruct (List.length (elements pos') =? 2)%nat eqn:Hlen; cbn [negb andb];
      [|discriminate].
    destruct (forallb isinstance_int_float (elements pos')) eqn:Hall;
      cbn [negb]; [|discriminate].
    destruct (isinstance_int_float speed') eqn:Hs; cbn [negb]; [|discriminate].
    destruct (isinstance_int ts') eqn:Ht; cbn [negb]; [|discriminate].
    destruct id; try discriminate.
    intros [= -> -> -> ->]. exists m.
    rewrite Hseq, Hlen, Hall. repeat split; auto.
  - intros (m & -> & Hid & Hpos & Hpair & Hspeed & Hnum & Hts & Hint).
    cbn [forallb]. rewrite Hid, Hpos, Hspeed, Hts.
    cbn [forallb andb negb isinstance_str].
    rewrite !andb_true_iff in Hpair. destruct Hpair as [[-> ->] ->].
    rewrite Hnum, Hint. reflexivity.
Qed.

Lemma store_control (id : string) (pos speed ts : value) (now : Z) (st : state) :
  store id pos speed ts now st =
  if now - match first_ts st with
           | None => now
           | Some t => t
           end >=? COLLECT_WINDOW_MS
  then Break (stored id pos speed ts now st)
  else Continue (stored id pos speed ts now st).
Proof. reflexivity. Qed.

Lemma store_state (id : string) (pos speed ts : value) (now : Z) (st : state) :
  state_after (store id pos speed ts now st) =
  Some (stored id pos speed ts now st).
Proof.
  rewrite store_control. destruct (_ >=? _); reflexivity.
Qed.

Section ReceiverFacts.

Variable json_loads : text -> res value.

(** A datagram that is not accepted leaves the state as it is, or lets an
    exception out of the loop; it never ends the loop normally. *)
Lemma iteration_not_accepted (data : bytes) (now : Z) (st : state) :
  accepted json_loads (RecvData data now) = None ->
  iteration json_loads (RecvData data now) st = Continue st \/
  exists e, e <> JSONDecodeError /\ parse json_loads data = Raise e /\
            iteration json_loads (RecvData data now) st = Propagate e.
Proof.
  unfold accepted, iteration.
  destruct (parse json_loads data) as [msg|e] eqn:Hp.
  - destruct (validate msg) as [[[[id pos] speed] ts]|]; [discriminate|].
    intros _. left. reflexivity.
  - intros _. destruct e; try (left; reflexivity);
      right; eexists; (split; [|split; reflexivity]); discriminate.
Qed.

(** An accepted datagram is stored. *)
Lemma iteration_accepted (data : bytes) (now : Z) (st : state) (id : string) :
  accepted json_loads (RecvData data now) = Some id ->
  exists msg pos speed ts,
    parse json_loads data = Ok msg /\
    validate msg = Some (id, pos, speed, ts) /\
    iteration json_loads (RecvData data now) st = store id pos speed ts now st.
Proof.
  unfold accepted, iteration.
  destruct (parse json_loads data) as [msg|e] eqn:Hp; [|discriminate].
  destruct (validate msg) as [[[[id' pos] speed] ts]|] eqn:Hv; [|discriminate].
  intros [= ->]. exists msg, pos, speed, ts. repeat split; assumption.
Qed.

(** The keys of the table after one round. *)
Lemma iteration_keys (ev : event) (st st' : state) :
  state_after (iteration json_loads ev st) = Some st' ->
  match accepted json_loads ev with
  | None => st' = st
  | Some id =>
      dict_get id (neighbors st') <> None /\
      forall k, In k (keys (neighbors st')) <->
                k = id \/ In k (keys (neighbors st))
  end /\
  (NoDup (keys (neighbors st)) -> NoDup (keys (neighbors st'))).
Proof.
  destruct ev as [|data now].
  - simpl. intros [= <-]. auto.
  - destruct (accepted json_loads (RecvData data now)) as [id|] eqn:Ha.
    + destruct (iteration_accepted data now st id Ha)
        as (msg & pos & speed & ts & _ & _ & ->).
      rewrite store_state. intros [= <-]. unfold stored; simpl.
      split; [split|].
      * rewrite dict_get_set_same. discriminate.
      * intros k. apply keys_set_in.
      * apply keys_set_nodup.
    + destruct (iteration_not_accepted data now st Ha)
        as [->|(e & _ & _ & ->)]; simpl; [|discriminate].
      intros [= <-]. auto.
Qed.

(** The table along a run: its keys are the ids accepted so far, each
    once. *)
Lemma main_loop_keys (evs : list event) (st0 : state) :
  NoDup (keys (neighbors st0)) ->
  match main_loop json_loads evs st0 with
  | Exited st rest =>
      exists used,
        evs = used ++ rest /\
        NoDup (keys (neighbors st)) /\
        forall k, In k (keys (neighbors st)) <->
                  In k (keys (neighbors st0)) \/
                  In k (accepted_ids json_loads used)
  | Pending st =>
      NoDup (keys (neighbors st)) /\
      forall k, In k (keys (neighbors st)) <->
                In k (keys (neighbors st0)) \/
                In k (accepted_ids json_loads evs)
  | Failed _ => True
  end.
Proof.
  revert st0; induction evs as [|ev evs IH]; intros st0 Hnd.
  - simpl. split; [assumption|]. intros k. tauto.
  - cbn [main_loop accepted_ids].
    destruct (iteration json_loads ev st0) as [st1|st1|e] eqn:Hit; [| |exact I].
    + assert (Hst : state_after (iteration json_loads ev st0) = Some st1)
        by (rewrite Hit; reflexivity).
      apply iteration_keys in Hst. destruct Hst as [Hacc Hnd1].
      specialize (IH st1 (Hnd1 Hnd)).
      destruct (main_loop json_loads evs st1) as [st rest|st|e]; [| |exact I].
      * destruct IH as (used & -> & Hnd' & Hk).
        exists (ev :: used). split; [reflexivity|]. split; [assumption|].
        intros k. rewrite Hk. cbn [accepted_ids].
        destruct (accepted json_loads ev) as [id|].
        -- destruct Hacc as [_ Hacc]. rewrite Hacc. simpl. intuition congruence.
        -- subst st1. tauto.
      * destruct IH as (Hnd' & Hk). split; [assumption|].
        intros k. rewrite Hk.
        destruct (accepted json_loads ev) as [id|].
        -- destruct Hacc as [_ Hacc]. rewrite Hacc. simpl. intuition congruence.
        -- subst st1. tauto.
    + assert (Hst : state_after (iteration json_loads ev st0) = Some st1)
        by (rewrite Hit; reflexivity).
      apply iteration_keys in Hst. destruct Hst as [Hacc Hnd1].
      exists [ev]. split; [reflexivity|]. split; [auto|].
      intros k. cbn [accepted_ids].
      destruct (accepted json_loads ev) as [id|].
      * destruct Hacc as [_ Hacc]. rewrite Hacc. simpl. intuition congruence.
      * subst st1. simpl. tauto.
Qed.

End ReceiverFacts.

(** ** Distances and the nearest vehicle on the sample table *)

Example dist_3_4 : euclidean_dist_to_origin (ipos 3 4) = Ok five.
Proof. vm_compute. reflexivity. Qed.

Example dist_0_0 : euclidean_dist_to_origin (ipos 0 0) = Ok (S754_zero false).
Proof. vm_compute. reflexivity. Qed.

Example nearest_ABC : nearest_neighbor table_ABC = Ok (Some ("B", sqrt_two)).
Proof. vm_compute. reflexivity. Qed.

(** 1.4142 < sqrt_two < 1.4143, with 1.4142 = 14142/10000 compared
    exactly: sqrt_two = m * 2^-52. *)
Example sqrt_two_approx :
  14142 * 2 ^ 52 < 10000 * 6369051672525773 < 14143 * 2 ^ 52.
Proof. vm_compute. split; reflexivity. Qed.

Example sample_run :
  main sample_loads
       [RecvData [x7b] 5; RecvData wire_1 100; RecvData wire_4 200;
        RecvData wire_3 500; RecvData wire_2 1099; RecvData wire_2 1100;
        RecvTimeout] 1234
  = Printed {| topic := "/v2x/neighbor_summary"; count := 2;
               nearest := Some ("veh_2", S754_finite false 4503599627370496 (-52));
               ts := 1234 |} 0.
Proof. vm_compute. reflexivity. Qed.

(** ** Malformed datagrams *)

(** A datagram that [json.loads] refuses, or whose message fails the
    validation block, is dropped: the state is unchanged and the loop goes
    on. *)
Lemma malformed_dropped (json_loads : text -> res value) (data : bytes)
      (now : Z) (st : state) :
  parse json_loads data = Raise JSONDecodeError \/
  (exists msg, parse json_loads data = Ok msg /\ validate msg = None) ->
  iteration json_loads (RecvData data now) st = Continue st.
Proof.
  unfold iteration. intros [->|(msg & -> & ->)]; reflexivity.
Qed.

(** Bytes that are not UTF-8 never reach [json.loads]: [decode] raises
    [UnicodeDecodeError], whatever [json.loads] is. *)
Lemma parse_invalid_utf8 (json_loads : text -> res value) (data : bytes) :
  utf8 data = None -> parse json_loads data = Raise UnicodeDecodeError.
Proof. unfold parse, decode. intros ->. reflexivity. Qed.

(** C1 (the code departs from the claim): a datagram whose bytes are not
    valid UTF-8, here the single byte 0xFF, is not discarded.  The
    [UnicodeDecodeError] of [data.decode] is not a [JSONDecodeError], the
    handler does not catch it, it leaves the loop and [main] ends with
    the exception instead of printing the summary. *)
Theorem invalid_utf8_ends_main (json_loads : text -> res value) (now : Z)
        (st : state) (evs : list event) (final_now : Z) :
  iteration json_loads (RecvData [xff] now) st = Propagate UnicodeDecodeError /\
  main json_loads (RecvData [xff] now :: evs) final_now
  = Crashed UnicodeDecodeError.
Proof. split; reflexivity. Qed.

(** ** The collection window *)

(** Datagrams that are dropped leave the loop running in the state it
    was in; in particular [first_ts] stays unset. *)
Lemma dropped_prefix (json_loads : text -> res value) (evs : list event)
      (st : state) :
  Forall (fun ev => iteration json_loads ev st = Continue st) evs ->
  main_loop json_loads evs st = Pending st.
Proof.
  induction 1 as [|ev evs Hev _ IH]; cbn [main_loop]; [reflexivity|].
  rewrite Hev. exact IH.
Qed.

(** After any number of dropped datagrams, the first accepted beacon
    starts the window at its own arrival time and the loop goes on. *)
Lemma window_opens_at_first_beacon (json_loads : text -> res value)
      (evs : list event) (data : bytes) (now : Z) (id : string) :
  Forall (fun ev => iteration json_loads ev initial = Continue initial) evs ->
  accepted json_loads (RecvData data now) = Some id ->
  exists st,
    main_loop json_loads (evs ++ [RecvData data now]) initial = Pending st /\
    first_ts st = Some now.
Proof.
  intros Hdrop Hacc.
  destruct (iteration_accepted json_loads data now initial id Hacc)
    as (msg & pos & speed & ts & _ & _ & Hit).
  exists (stored id pos speed ts now initial). split; [|reflexivity].
  induction Hdrop as [|ev evs Hev _ IH]; cbn [app main_loop].
  - rewrite Hit, store_control. simpl. rewrite Z.sub_diag. reflexivity.
  - rewrite Hev. exact IH.
Qed.

(** One round of the loop and the window.  A datagram that is not
    accepted leaves the state, and so [first_ts], as it was and does not
    end the loop normally.  An accepted beacon that finds [first_ts] unset
    sets it to the clock reading [now] of that round, whatever the message
    says, and the loop goes on; one that finds it set to [t] leaves it and
    ends the loop exactly when [now - t >= 1000]. *)
Lemma iteration_window (json_loads : text -> res value)
        (data : bytes) (now : Z) (st : state) :
  match accepted json_loads (RecvData data now) with
  | None =>
      iteration json_loads (RecvData data now) st = Continue st \/
      exists e, iteration json_loads (RecvData data now) st = Propagate e
  | Some id =>
      exists table,
        match first_ts st with
        | None =>
            iteration json_loads (RecvData data now) st
            = Continue {| neighbors := table; first_ts := Some now |}
        | Some t =>
            iteration json_loads (RecvData data now) st
            = if now - t >=? 1000
              then Break {| neighbors := table; first_ts := Some t |}
              else Continue {| neighbors := table; first_ts := Some t |}
        end
  end.
Proof.
  destruct (accepted json_loads (RecvData data now)) as [id|] eqn:Ha.
  - destruct (iteration_accepted json_loads data now st id Ha)
      as (msg & pos & speed & ts & _ & _ & ->).
    exists (dict_set id (mk_record pos speed ts) (neighbors st)).
    rewrite store_control. unfold stored, COLLECT_WINDOW_MS.
    destruct (first_ts st) as [t|]; [reflexivity|].
    rewrite Z.sub_diag. reflexivity.
  - destruct (iteration_not_accepted json_loads data now st Ha)
      as [H|(e & _ & _ & H)]; [left|right; exists e]; exact H.
Qed.

(** ** The selector on positions out of range *)

(** C2 (the code departs from the claim): the table with the single
    record A at [10^200, 0], a position that the validation block and the
    guards of [euclidean_dist_to_origin] accept, has a record with a valid
    two-element numeric position, and the selector returns no pair: the
    square 10^400 does not fit a float, [math.sqrt] raises
    [OverflowError], and the handler of the loop does not catch it. *)
Theorem huge_position_ends_selector :
  validate (beacon "A" huge (PyInt 1) (PyInt 1))
  = Some ("A", huge, PyInt 1, PyInt 1) /\
  numeric_pair huge = true /\
  nearest_neighbor [("A", mk_record huge (PyInt 1) (PyInt 1))]
  = Raise OverflowError.
Proof. vm_compute. repeat split; reflexivity. Qed.

(** The same on a float whose square the C library reports out of
    range. *)
Lemma huge_float_ends_selector (s : bool) (m : positive) (e : Z) :
  libm_pow2 m e = PowRange ->
  nearest_neighbor
    [("A", mk_record (PyList [PyFloat (S754_finite s m e); PyInt 0])
                     (PyInt 1) (PyInt 1))]
  = Raise OverflowError.
Proof.
  intros H. unfold nearest_neighbor, nn_loop, nn_step, record_dist.
  cbn [mk_record getitem dict_get String.eqb Ascii.eqb Bool.eqb bind].
  unfold euclidean_dist_to_origin. cbn -[pow2 add math_sqrt].
  unfold pow2 at 1. rewrite H. reflexivity.
Qed.

(** C5 (the code departs from the claim): the table with the single
    record A at [inf, 0] is not empty and the distance of A is computed
    without failure (it is plus infinity), yet the selector returns "no
    neighbor": the test [dist < min_dist] against the initial infinity
    fails. *)
Theorem infinite_distance_selects_none :
  validate (beacon "A" far (PyInt 1) (PyInt 1))
  = Some ("A", far, PyInt 1, PyInt 1) /\
  record_dist (mk_record far (PyInt 1) (PyInt 1)) = Ok inf /\
  nearest_neighbor [("A", mk_record far (PyInt 1) (PyInt 1))] = Ok None.
Proof. vm_compute. repeat split; reflexivity. Qed.

(** The same for a distance that is not a number. *)
Example nan_distance_selects_none :
  record_dist (mk_record (PyList [PyFloat nan; PyInt 0]) (PyInt 1) (PyInt 1))
  = Ok nan /\
  nearest_neighbor
    [("A", mk_record (PyList [PyFloat nan; PyInt 0]) (PyInt 1) (PyInt 1))]
  = Ok None.
Proof. vm_compute. split; reflexivity. Qed.

(** C7 (the code departs from the claim): in the table A at [inf, 0],
    B at [inf, 0] the two distances are equal and no distance is smaller,
    and the selector returns no id at all, not A. *)
Theorem tie_at_infinity_selects_none :
  record_dist (mk_record far (PyInt 1) (PyInt 1)) = Ok inf /\
  feq inf inf = true /\
  nearest_neighbor [("A", mk_record far (PyInt 1) (PyInt 1));
                    ("B", mk_record far (PyInt 2) (PyInt 2))] = Ok None.
Proof. vm_compute. repeat split; reflexivity. Qed.

(** Among records at equal distances below infinity the first in table
    order wins, when the selector returns. *)
Lemma first_of_equal_distances (t : dict) (k : string) (m : float) :
  nearest_neighbor t = Ok (Some (k, m)) ->
  exists l1 data l2,
    t = l1 ++ (k, data) :: l2 /\
    record_dist data = Ok m /\
    forall k' data' d, In (k', data') l1 -> record_dist data' = Ok d ->
                       feq d m = false.
Proof.
  intros H. destruct (nearest_neighbor_some _ _ _ H)
    as (l1 & data & l2 & Ht & Hm & _ & Hb & _).
  exists l1, data, l2. repeat split; auto.
  intros k' data' d Hin Hd. specialize (Hb _ _ _ Hin Hd).
  unfold fle, feq, SFleb, SFeqb in *.
  destruct (SFcompare d m) as [[]|]; congruence.
Qed.

Example tie_ABC :
  nearest_neighbor
    [("C", mk_record (ipos (-5) 0) (PyInt 1) (PyInt 1));
     ("A", mk_record (ipos 3 4) (PyInt 1) (PyInt 1));
     ("D", mk_record (ipos 0 5) (PyInt 1) (PyInt 1))]
  = Ok (Some ("C", five)).
Proof. vm_compute. reflexivity. Qed.

(** ** Records that fail the guards *)


(** ** One record per vehicle *)

(** C4: two accepted beacons with the same id, handled one after the
    other, leave one entry for that id, and the entry is exactly the
    dictionary with the three keys pos, speed and last_ts holding the pos,
    speed and ts fields of the second message; nothing of the first
    beacon's record remains, and the table is the earlier table with the
    entry of that id assigned twice. *)
Theorem same_id_overwrites (json_loads : text -> res value)
        (st st1 : state) (d1 d2 : bytes) (n1 n2 : Z) (m1 m2 : value)
        (id : string) (pos1 speed1 ts1 pos2 speed2 ts2 : value) :
  NoDup (keys (neighbors st)) ->
  parse json_loads d1 = Ok m1 -> validate m1 = Some (id, pos1, speed1, ts1) ->
  parse json_loads d2 = Ok m2 -> validate m2 = Some (id, pos2, speed2, ts2) ->
  iteration json_loads (RecvData d1 n1) st = Continue st1 ->
  exists st2,
    state_after (iteration json_loads (RecvData d2 n2) st1) = Some st2 /\
    count_occ string_dec (keys (neighbors st2)) id = 1%nat /\
    dict_get id (neighbors st2)
    = Some (PyDict [("pos", pos2); ("speed", speed2); ("last_ts", ts2)]) /\
    keys (neighbors st2) = keys (neighbors st1) /\
    neighbors st2
    = dict_set id
        (PyDict [("pos", pos2); ("speed", speed2); ("last_ts", ts2)])
        (dict_set id
           (PyDict [("pos", pos1); ("speed", speed1); ("last_ts", ts1)])
           (neighbors st)) /\
    exists fields,
      m2 = PyDict fields /\
      dict_get "id" fields = Some (PyStr id) /\
      dict_get "pos" fields = Some pos2 /\
      dict_get "speed" fields = Some speed2 /\
      dict_get "ts" fields = Some ts2.
Proof.
  intros Hnd Hp1 Hv1 Hp2 Hv2 Hit1.
  assert (Hst1 : st1 = stored id pos1 speed1 ts1 n1 st).
  { unfold iteration in Hit1. rewrite Hp1, Hv1 in Hit1.
    assert (H := store_state id pos1 speed1 ts1 n1 st).
    rewrite Hit1 in H. simpl in H. congruence. }
  exists (stored id pos2 speed2 ts2 n2 st1). split.
  - unfold iteration. rewrite Hp2, Hv2. apply store_state.
  - assert (Hin : In id (keys (neighbors st1))).
    { subst st1. unfold stored; simpl. apply keys_set_in. left; reflexivity. }
    assert (Hnd1 : NoDup (keys (neighbors st1))).
    { subst st1. unfold stored; simpl. apply keys_set_nodup; assumption. }
    assert (Hk : keys (neighbors (stored id pos2 speed2 ts2 n2 st1))
                 = keys (neighbors st1)).
    { unfold stored; simpl. apply keys_set_present; assumption. }
    split; [|split; [|split; [|split]]].
    + rewrite Hk. apply NoDup_count_occ'; assumption.
    + unfold stored, mk_record; simpl. apply dict_get_set_same.
    + exact Hk.
    + subst st1. reflexivity.
    + apply validate_some in Hv2.
      destruct Hv2 as (fields & -> & Hid & Hpos & _ & Hspeed & _ & Hts & _).
      exists fields. repeat split; assumption.
Qed.

(** ** The count *)

Lemma length_nodup_of_same_elements (l1 l2 : list string) :
  NoDup l1 -> (forall k, In k l1 <-> In k l2) ->
  List.length l1 = List.length (nodup string_dec l2).
Proof.
  intros Hnd Hsame. apply Permutation_length.
  apply NoDup_Permutation; [assumption|apply NoDup_nodup|].
  intros k. rewrite nodup_In. apply Hsame.
Qed.

(** C9: along a run from the empty table, the size of the table is the
    number of distinct ids accepted in the events read so far, whether the
    loop has ended or not, and the count of the summary that [main] prints
    is that number.  A round of the loop never removes a key; an accepted
    beacon assigns the one entry of its id and leaves every other entry as
    it was; a datagram that is not accepted leaves the table as it was. *)
Theorem count_is_number_of_accepted_ids (json_loads : text -> res value)
        (evs : list event) (final_now : Z) :
  match main_loop json_loads evs initial with
  | Exited st rest =>
      exists used,
        evs = used ++ rest /\
        List.length (neighbors st)
        = List.length (nodup string_dec (accepted_ids json_loads used)) /\
        main json_loads evs final_now
        = match nearest_neighbor (neighbors st) with
          | Raise e => Crashed e
          | Ok nn =>
              Printed
                {| topic := "/v2x/neighbor_summary";
                   count := Z.of_nat
                              (List.length
                                 (nodup string_dec
                                        (accepted_ids json_loads used)));
                   nearest := nn;
                   ts := final_now |} 0
          end
  | Pending st =>
      List.length (neighbors st)
      = List.length (nodup string_dec (accepted_ids json_loads evs))
  | Failed _ => True
  end /\
  forall ev st,
    match state_after (iteration json_loads ev st) with
    | Some st' =>
        incl (keys (neighbors st)) (keys (neighbors st')) /\
        match accepted json_loads ev with
        | Some id =>
            (exists record,
               neighbors st' = dict_set id record (neighbors st)) /\
            forall k, k <> id ->
                      dict_get k (neighbors st') = dict_get k (neighbors st)
        | None => neighbors st' = neighbors st
        end
    | None => True
    end.
Proof.
  split.
  - assert (H := main_loop_keys json_loads evs initial (NoDup_nil _)).
    unfold main.
    destruct (main_loop json_loads evs initial) as [st rest|st|e]; [| |exact I].
    + destruct H as (used & Hevs & Hnd & Hk). exists used.
      assert (Hlen : List.length (neighbors st)
                     = List.length
                         (nodup string_dec (accepted_ids json_loads used))).
      { rewrite <- (length_map fst (neighbors st)).
        apply length_nodup_of_same_elements; [exact Hnd|].
        intros k. rewrite (Hk k). simpl. tauto. }
      repeat split; [exact Hevs|exact Hlen|].
      rewrite Hlen. reflexivity.
    + destruct H as (Hnd & Hk).
      rewrite <- (length_map fst (neighbors st)).
      apply length_nodup_of_same_elements; [exact Hnd|].
      intros k. rewrite (Hk k). simpl. tauto.
  - intros ev st.
    destruct (state_after (iteration json_loads ev st)) as [st'|] eqn:Hs;
      [|exact I].
    split.
    + apply iteration_keys in Hs. destruct Hs as [Hacc _].
      destruct (accepted json_loads ev) as [id|].
      * destruct Hacc as [_ Hk]. intros k Hin. apply Hk. right. exact Hin.
      * subst st'. apply incl_refl.
    + destruct ev as [|data now].
      * simpl in Hs. injection Hs as <-. reflexivity.
      * destruct (accepted json_loads (RecvData data now)) as [id|] eqn:Ha.
        -- destruct (iteration_accepted json_loads data now st id Ha)
             as (msg & pos & speed & ts & _ & _ & Hit).
           rewrite Hit, store_state in Hs. injection Hs as <-.
           unfold stored; simpl. split.
           ++ exists (mk_record pos speed ts). reflexivity.
           ++ intros k Hne. apply dict_get_set_other. congruence.
        -- destruct (iteration_not_accepted json_loads data now st Ha)
             as [Hit|(e & _ & _ & Hit)]; rewrite Hit in Hs; simpl in Hs;
             [|discriminate].
           injection Hs as <-. reflexivity.
Qed.

(** ** What the validation block accepts *)

(** A message with the four fields of the wire format (a string id, a
    two-element array of JSON numbers, a JSON number, a JSON integer) is
    accepted, with any further keys it may have. *)
Lemma wire_format_accepted (m : dict) (key : string) (x y speed ts : value) :
  dict_get "id" m = Some (PyStr key) ->
  dict_get "pos" m = Some (PyList [x; y]) ->
  dict_get "speed" m = Some speed ->
  dict_get "ts" m = Some ts ->
  json_number x = true -> json_number y = true ->
  json_number speed = true -> json_integer ts = true ->
  validate (PyDict m) = Some (key, PyList [x; y], speed, ts).
Proof.
  intros Hid Hpos Hspeed Hts Hx Hy Hs Ht. apply validate_some.
  exists m. repeat split; auto.
  - unfold numeric_pair; simpl. destruct x, y; try discriminate; reflexivity.
  - destruct speed; try discriminate; reflexivity.
  - destruct ts; try discriminate; reflexivity.
Qed.

(** A float timestamp is refused, whatever its value (a whole number
    included): it is not truncated to an integer. *)
Lemma float_ts_refused (m : dict) (f : float) :
  dict_get "ts" m = Some (PyFloat f) -> validate (PyDict m) = None.
Proof.
  intros Hts. destruct (validate (PyDict m)) as [[[[key pos] speed] ts]|] eqn:Hv;
    [|reflexivity].
  apply validate_some in Hv.
  destruct Hv as (m' & [= <-] & _ & _ & _ & _ & _ & Hts' & Hint).
  rewrite Hts in Hts'. injection Hts' as <-. discriminate.
Qed.

Example float_ts_refused_sample : validate msg_4 = None.
Proof. reflexivity. Qed.

(** A message that lacks a required key is refused. *)
Lemma missing_key_refused (m : dict) (k : string) :
  In k required_keys -> dict_get k m = None -> validate (PyDict m) = None.
Proof.
  intros Hk Hnone.
  destruct (validate (PyDict m)) as [[[[key pos] speed] ts]|] eqn:Hv;
    [|reflexivity].
  apply validate_some in Hv.
  destruct Hv as (m' & [= <-] & Hid & Hpos & _ & Hspeed & _ & Hts & _).
  simpl in Hk. destruct Hk as [<-|[<-|[<-|[<-|[]]]]]; congruence.
Qed.

(** What is not a dictionary is refused. *)
Lemma not_a_mapping_refused (msg : value) :
  isinstance_dict msg = false -> validate msg = None.
Proof. destruct msg; try reflexivity. discriminate. Qed.

(** C6 (the code departs from the claim): the message with id "veh_2",
    pos [true, false], speed true and ts false is accepted and stored,
    although no element of its pos is a number, its speed is not a number
    and its ts is not an integer: they are JSON booleans. *)
Theorem boolean_fields_accepted :
  json_number (PyBool true) = false /\
  json_number (PyBool false) = false /\
  json_integer (PyBool false) = false /\
  validate msg_3
  = Some ("veh_2", PyList [PyBool true; PyBool false], PyBool true,
          PyBool false) /\
  iteration sample_loads (RecvData wire_3 100) initial
  = Continue
      {| neighbors :=
           [("veh_2", mk_record (PyList [PyBool true; PyBool false])
                                (PyBool true) (PyBool false))];
         first_ts := Some 100 |}.
Proof. vm_compute. repeat split; reflexivity. Qed.

(** ** Booleans *)



Example bool_distance :
  euclidean_dist_to_origin (PyList [PyBool true; PyBool true]) = Ok sqrt_two.
Proof. vm_compute. reflexivity. Qed.

(** * Further properties of the code *)

(** ** The distance *)

Lemma round_aux_not_negative (m e : Z) (l : location) :
  not_negative (binary_round_aux prec emax false m e l) = true.
Proof.
  unfold binary_round_aux.
  destruct (shr_fexp prec emax m e l) as [mrs' e'].
  destruct (shr_fexp prec emax _ e' loc_Exact) as [mrs'' e''].
  destruct (shr_m mrs''); [reflexivity| |reflexivity].
  destruct (Z.leb e'' (emax - prec)); reflexivity.
Qed.

Lemma normalize_not_negative (z e : Z) :
  0 <= z -> not_negative (binary_normalize prec emax z e false) = true.
Proof.
  destruct z as [|p|p]; intros Hz; [reflexivity| |lia].
  unfold binary_normalize, binary_round.
  destruct (shl_align p e _) as [mz ez]. apply round_aux_not_negative.
Qed.

Lemma float_of_int_not_negative (z : Z) (f : float) :
  0 <= z -> float_of_int z = Ok f -> not_negative f = true.
Proof.
  intros Hz. unfold float_of_int.
  assert (H := normalize_not_negative z 0 Hz).
  destruct (binary_normalize prec emax z 0 false); intros [= <-];
    try exact H; reflexivity.
Qed.

Lemma add_not_negative (a b : float) :
  not_negative a = true -> not_negative b = true ->
  not_negative (SFadd prec emax a b) = true.
Proof.
  destruct a as [[]|[]| |[] ma ea], b as [[]|[]| |[] mb eb];
    try discriminate; try reflexivity.
  intros _ _. unfold SFadd, cond_Zopp.
  apply normalize_not_negative. lia.
Qed.

Lemma sqrt_not_negative (f : float) :
  not_negative f = true -> not_negative (SFsqrt prec emax f) = true.
Proof.
  destruct f as [[]|[]| |[] m e]; try discriminate; try reflexivity.
  intros _. unfold SFsqrt.
  destruct (SFsqrt_core_binary prec emax (Z.pos m) e) as [[mz ez] lz].
  apply round_aux_not_negative.
Qed.

Lemma pow2_not_negative (x v : value) :
  pow2 libm_pow2 x = Ok v -> not_negative_number v = true.
Proof.
  destruct x as [|b|z|f| | | |]; simpl; try discriminate.
  - intros [= <-]. simpl. apply Z.leb_le. destruct b; simpl; lia.
  - intros [= <-]. simpl. apply Z.leb_le. nia.
  - destruct f as [s|s| |s m e]; try (intros [= <-]; reflexivity).
    destruct (libm_pow2 m e); try discriminate; intros [= <-]; reflexivity.
Qed.

Lemma as_float_not_negative (v : value) (f : float) :
  not_negative_number v = true -> as_float v = Ok f -> not_negative f = true.
Proof.
  destruct v as [|b|z|g| | | |]; simpl; try discriminate.
  - intros Hz. apply float_of_int_not_negative. apply Z.leb_le; exact Hz.
  - intros Hg [= <-]. exact Hg.
Qed.

Lemma add_value_not_negative (a b v : value) :
  not_negative_number a = true -> not_negative_number b = true ->
  add a b = Ok v -> not_negative_number v = true.
Proof.
  intros Ha Hb. unfold add.
  destruct (as_int a) as [za|] eqn:Eia, (as_int b) as [zb|] eqn:Eib.
  1: { destruct a, b; try discriminate. simpl in *.
       injection Eia as <-. injection Eib as <-. intros [= <-]. simpl.
       apply Z.leb_le. apply Z.leb_le in Ha, Hb. lia. }
  all: destruct (as_float a) as [fa|ea] eqn:Efa; cbn [bind]; [|discriminate];
    destruct (as_float b) as [fb|eb] eqn:Efb; cbn [bind]; [|discriminate];
    intros [= <-]; simpl; apply add_not_negative;
    (eapply as_float_not_negative; [|eassumption]; assumption).
Qed.

Lemma not_negative_not_below_zero (d : float) :
  not_negative d = true -> flt d (S754_zero false) = false.
Proof. destruct d as [[]|[]| |[] m e]; try discriminate; reflexivity. Qed.

Lemma as_float_outcome (v : value) :
  not_negative_number v = true ->
  (exists f, as_float v = Ok f /\ not_negative f = true) \/
  as_float v = Raise OverflowError.
Proof.
  intros Hv. destruct (as_float v) as [f|e] eqn:Ef.
  - left. exists f. split; [reflexivity|].
    eapply as_float_not_negative; eassumption.
  - right. destruct v as [|b|z|g| | | |]; simpl in *; try discriminate.
    unfold float_of_int in Ef.
    destruct (binary_normalize prec emax z 0 false); congruence.
Qed.

Lemma pow2_raises (x : value) (e : exn) :
  isinstance_int_float x = true -> pow2 libm_pow2 x = Raise e ->
  e = OverflowError.
Proof.
  destruct x as [|b|z|f| | | |]; simpl; try discriminate.
  intros _. destruct f as [s|s| |s m e']; try discriminate.
  destruct (libm_pow2 m e'); congruence.
Qed.

Lemma pow2_outcome (x : value) :
  isinstance_int_float x = true ->
  (exists v, pow2 libm_pow2 x = Ok v /\ not_negative_number v = true) \/
  pow2 libm_pow2 x = Raise OverflowError.
Proof.
  intros Hx. destruct (pow2 libm_pow2 x) as [v|e] eqn:Ep.
  - left. exists v. split; [reflexivity|]. exact (pow2_not_negative x v Ep).
  - right. rewrite (pow2_raises x e Hx Ep). reflexivity.
Qed.

Lemma add_outcome (a b : value) :
  not_negative_number a = true -> not_negative_number b = true ->
  (exists v, add a b = Ok v /\ not_negative_number v = true) \/
  add a b = Raise OverflowError.
Proof.
  intros Ha Hb. destruct (add a b) as [v|e] eqn:Ea.
  - left. exists v. split; [reflexivity|].
    exact (add_value_not_negative a b v Ha Hb Ea).
  - right. unfold add in Ea.
    destruct (as_int a), (as_int b); try discriminate;
      destruct (as_float_outcome a Ha) as [(fa & Efa & _)|Efa];
      rewrite Efa in Ea; cbn [bind] in Ea; try congruence;
      destruct (as_float_outcome b Hb) as [(fb & Efb & _)|Efb];
      rewrite Efb in Ea; cbn [bind] in Ea; congruence.
Qed.

Lemma math_sqrt_outcome (v : value) :
  not_negative_number v = true ->
  (exists d, math_sqrt v = Ok d /\ not_negative d = true) \/
  math_sqrt v = Raise OverflowError.
Proof.
  intros Hv. unfold math_sqrt.
  destruct (as_float_outcome v Hv) as [(f & -> & Hf)| -> ]; cbn [bind];
    [|right; reflexivity].
  left. destruct f as [[]|[]| |[] m e]; try discriminate;
    eexists; (split; [reflexivity|]); try reflexivity.
  apply (sqrt_not_negative (S754_finite false m e)). reflexivity.
Qed.

Lemma euclidean_pair_outcome (pos : value) :
  numeric_pair pos = true ->
  (exists d, euclidean_dist_to_origin pos = Ok d /\ not_negative d = true) \/
  euclidean_dist_to_origin pos = Raise OverflowError.
Proof.
  intros Hp.
  destruct (euclidean_valid pos Hp) as (p0 & p1 & _ & H0 & H1 & ->).
  destruct (pow2_outcome p0 H0) as [(a & -> & Ha)| -> ]; cbn [bind]; [|auto].
  destruct (pow2_outcome p1 H1) as [(b & -> & Hb)| -> ]; cbn [bind]; [|auto].
  destruct (add_outcome a b Ha Hb) as [(s & -> & Hs)| -> ]; cbn [bind]; [|auto].
  destruct (math_sqrt_outcome s Hs) as [(d & -> & Hd)| -> ]; eauto.
Qed.

(** X1: [euclidean_dist_to_origin] raises [ValueError] exactly on what is
    not a list or tuple of two numbers; on such a pair it returns a
    distance or raises [OverflowError], nothing else.  The domain error of
    [math.sqrt] cannot occur. *)
Theorem distance_outcome (pos : value) :
  match euclidean_dist_to_origin pos with
  | Ok _ => numeric_pair pos = true
  | Raise e =>
      (e = ValueError /\ numeric_pair pos = false) \/
      (e = OverflowError /\ numeric_pair pos = true)
  end.
Proof.
  destruct (numeric_pair pos) eqn:Hp.
  - destruct (euclidean_pair_outcome pos Hp) as [(d & -> & _)| -> ]; auto.
  - rewrite (euclidean_invalid pos Hp). auto.
Qed.

(** X2: a distance that [euclidean_dist_to_origin] returns is never below
    zero: it is a zero, a positive number, plus infinity or NaN. *)
Theorem distance_not_below_zero (pos : value) (d : float) :
  euclidean_dist_to_origin pos = Ok d ->
  not_negative d = true /\ flt d (S754_zero false) = false.
Proof.
  intros Hd.
  assert (Hn : not_negative d = true).
  { destruct (numeric_pair pos) eqn:Hp.
    - destruct (euclidean_pair_outcome pos Hp) as [(d' & Hd' & Hn)|Hr];
        congruence.
    - rewrite (euclidean_invalid pos Hp) in Hd. discriminate. }
  split; [exact Hn|]. apply not_negative_not_below_zero; exact Hn.
Qed.

(** ** Symmetries of the distance *)

Lemma SFadd_comm (a b : float) : SFadd prec emax a b = SFadd prec emax b a.
Proof.
  destruct a as [[]|[]| |sa ma ea], b as [[]|[]| |sb mb eb]; try reflexivity.
  unfold SFadd. rewrite (Z.min_comm eb ea). f_equal. apply Z.add_comm.
Qed.

Lemma as_float_raises (v : value) (e : exn) :
  isinstance_int_float v = true -> as_float v = Raise e -> e = OverflowError.
Proof.
  destruct v as [|b|z|g| | | |]; simpl; try discriminate; intros _;
    unfold float_of_int;
    match goal with
    | |- context [binary_normalize ?p ?m ?z ?x ?s] =>
        destruct (binary_normalize p m z x s)
    end; congruence.
Qed.

Lemma pow2_number (x v : value) :
  pow2 libm_pow2 x = Ok v -> isinstance_int_float v = true.
Proof.
  destruct x as [|b|z|f| | | |]; simpl; try discriminate;
    try (intros [= <-]; reflexivity).
  destruct f as [s|s| |s m e]; try (intros [= <-]; reflexivity).
  destruct (libm_pow2 m e); try discriminate; intros [= <-]; reflexivity.
Qed.

Lemma add_comm_number (a b : value) :
  isinstance_int_float a = true -> isinstance_int_float b = true ->
  add a b = add b a.
Proof.
  intros Ha Hb. unfold add.
  destruct (as_int a) as [za|] eqn:Ea, (as_int b) as [zb|] eqn:Eb;
    [rewrite Z.add_comm; reflexivity| | |];
    destruct (as_float a) as [fa|ea] eqn:Efa;
    destruct (as_float b) as [fb|eb] eqn:Efb;
    cbn [bind]; try rewrite SFadd_comm; try reflexivity;
    rewrite (as_float_raises a ea Ha Efa), (as_float_raises b eb Hb Efb);
    reflexivity.
Qed.

(** X3: the distance does not depend on the order of the two
    coordinates. *)
Theorem distance_swap (x y : value) :
  euclidean_dist_to_origin (PyList [x; y])
  = euclidean_dist_to_origin (PyList [y; x]).
Proof.
  destruct (numeric_pair (PyList [x; y])) eqn:Hp.
  - assert (Hp' : numeric_pair (PyList [y; x]) = true).
    { unfold numeric_pair in *; simpl in *.
      destruct (isinstance_int_float x), (isinstance_int_float y);
        try discriminate; reflexivity. }
    destruct (euclidean_valid _ Hp) as (p0 & p1 & [= <- <-] & Hx & Hy & ->).
    destruct (euclidean_valid _ Hp') as (q0 & q1 & [= <- <-] & _ & _ & ->).
    destruct (pow2 libm_pow2 x) as [a|ea] eqn:Ex, (pow2 libm_pow2 y) as [b|eb] eqn:Ey; cbn [bind].
    + rewrite (add_comm_number a b (pow2_number _ _ Ex) (pow2_number _ _ Ey)).
      reflexivity.
    + reflexivity.
    + reflexivity.
    + rewrite (pow2_raises x ea Hx Ex), (pow2_raises y eb Hy Ey). reflexivity.
  - assert (Hp' : numeric_pair (PyList [y; x]) = false).
    { unfold numeric_pair in *; simpl in *.
      destruct (isinstance_int_float x), (isinstance_int_float y);
        try discriminate; reflexivity. }
    rewrite (euclidean_invalid _ Hp), (euclidean_invalid _ Hp'). reflexivity.
Qed.

Lemma pow2_neg (x : value) : pow2 libm_pow2 (neg x) = pow2 libm_pow2 x.
Proof.
  destruct x as [|b|z|f| | | |]; simpl; try reflexivity.
  - rewrite Z.mul_opp_opp. reflexivity.
  - rewrite Z.mul_opp_opp. reflexivity.
  - destruct f as [s|s| |s m e]; reflexivity.
Qed.

(** X4: the distance does not depend on the sign of a coordinate. *)
Theorem distance_mirror (x y : value) :
  euclidean_dist_to_origin (PyList [neg x; y])
  = euclidean_dist_to_origin (PyList [x; y]) /\
  euclidean_dist_to_origin (PyList [x; neg y])
  = euclidean_dist_to_origin (PyList [x; y]).
Proof.
  assert (Hi : forall v, isinstance_int_float (neg v) = isinstance_int_float v)
    by (intros []; reflexivity).
  split; unfold euclidean_dist_to_origin; simpl; rewrite Hi;
    destruct (isinstance_int_float x), (isinstance_int_float y);
    simpl; try reflexivity; rewrite pow2_neg; reflexivity.
Qed.

(** ** The selector *)

(** X5: the selector returns "no neighbor" exactly when no distance
    raises [OverflowError] and no record has a distance below plus
    infinity; in particular on the empty table, and on a table whose
    records all fail the guards. *)
Theorem selector_none_iff (t : dict) :
  nearest_neighbor t = Ok None <->
  (forall k data, In (k, data) t -> record_dist data <> Raise OverflowError) /\
  (forall k data d, In (k, data) t -> record_dist data = Ok d ->
                    flt d inf = false).
Proof. apply nearest_neighbor_none. Qed.

(** X6: the only exception that leaves the selector is [OverflowError],
    and it does exactly when the distance of some record raises it; the
    [ValueError], [KeyError] and [TypeError] of a record never leave. *)
Theorem selector_raises_iff (t : dict) (e : exn) :
  nearest_neighbor t = Raise e <->
  e = OverflowError /\
  exists k data, In (k, data) t /\ record_dist data = Raise OverflowError.
Proof. apply nearest_neighbor_raises. Qed.

(** X7: when the selector returns a vehicle, the vehicle is an entry of
    the table, the distance returned is the distance of its record and is
    below plus infinity, no record of the table is nearer, and no record
    before it in the table is as near. *)
Theorem selector_sound (t : dict) (k : string) (m : float) :
  nearest_neighbor t = Ok (Some (k, m)) ->
  exists l1 data l2,
    t = l1 ++ (k, data) :: l2 /\
    record_dist data = Ok m /\
    flt m inf = true /\
    (forall k' data' d, In (k', data') l1 -> record_dist data' = Ok d ->
                        fle d m = false) /\
    (forall k' data' d, In (k', data') t -> record_dist data' = Ok d ->
                        flt d m = false).
Proof. apply nearest_neighbor_some. Qed.

(** X8: when no distance raises [OverflowError] and some record has a
    distance below plus infinity, the selector returns a vehicle, at a
    distance that the distance of that record is not below. *)
Theorem selector_complete (t : dict) (k : string) (data : value) (d : float) :
  (forall k' data', In (k', data') t ->
                    record_dist data' <> Raise OverflowError) ->
  In (k, data) t -> record_dist data = Ok d -> flt d inf = true ->
  exists w m, nearest_neighbor t = Ok (Some (w, m)) /\ flt d m = false.
Proof. apply nearest_neighbor_finds. Qed.

(** X9: the selector on a table with one more record at its end, from
    the selector on the table: the new record wins exactly when its
    distance is below the distance found so far (below plus infinity when
    nothing was found); a record whose distance raises [ValueError],
    [KeyError] or [TypeError] changes nothing; [OverflowError] leaves. *)
Theorem selector_append (t : dict) (k : string) (data : value) :
  nearest_neighbor (t ++ [(k, data)]) =
  match nearest_neighbor t with
  | Raise e => Raise e
  | Ok found =>
      match record_dist data with
      | Ok d =>
          Ok match found with
             | Some (w, m) => if flt d m then Some (k, d) else Some (w, m)
             | None => if flt d inf then Some (k, d) else None
             end
      | Raise OverflowError => Raise OverflowError
      | Raise _ => Ok found
      end
  end.
Proof.
  rewrite !nearest_neighbor_loop, nn_loop_app.
  destruct (nn_loop t (None, inf)) as [[o m]|e] eqn:Hl; cbn [bind nn_loop];
    [|reflexivity].
  assert (Hm : o = None -> m = inf).
  { intros ->. apply nn_loop_found in Hl. destruct Hl as [-> _]. reflexivity. }
  destruct (record_dist data) as [d|e] eqn:Hd.
  - rewrite (nn_step_ok _ _ _ _ Hd). cbn [bind snd].
    destruct o as [w|].
    + destruct (flt d m); reflexivity.
    + rewrite (Hm eq_refl). destruct (flt d inf); reflexivity.
  - destruct (record_dist_raises _ _ Hd) as [->|[->|[->| ->]]];
      try (rewrite (nn_step_skip _ _ _ _ Hd) by discriminate; cbn [bind];
           destruct o; reflexivity).
    rewrite (nn_step_overflow _ _ _ Hd). reflexivity.
Qed.

(** X10: the order of the records does not change what distance the
    selector returns, nor whether it returns "no neighbor" or raises; only
    the id among records at the same least distance depends on it. *)
Theorem selector_order_independent (t1 t2 : dict) :
  Permutation t1 t2 ->
  match nearest_neighbor t1, nearest_neighbor t2 with
  | Ok (Some (_, m1)), Ok (Some (_, m2)) => feq m1 m2 = true
  | Ok None, Ok None => True
  | Raise e1, Raise e2 => e1 = e2
  | _, _ => False
  end.
Proof.
  intros Hperm.
  assert (Hin : forall x, In x t1 <-> In x t2).
  { intros x. split; apply Permutation_in;
      [assumption|apply Permutation_sym; assumption]. }
  destruct (nearest_neighbor t1) as [[[k1 m1]|]|e1] eqn:H1.
  - destruct (nearest_neighbor_some _ _ _ H1)
      as (l1 & d1 & l1' & Ht1 & Hd1 & Hinf1 & _ & Hmin1).
    assert (Hk1 : In (k1, d1) t1).
    { rewrite Ht1. apply in_or_app. right. left. reflexivity. }
    destruct (nearest_neighbor t2) as [[[k2 m2]|]|e2] eqn:H2.
    + destruct (nearest_neighbor_some _ _ _ H2)
        as (l2 & d2 & l2' & Ht2 & Hd2 & Hinf2 & _ & Hmin2).
      assert (Hk2 : In (k2, d2) t2).
      { rewrite Ht2. apply in_or_app. right. left. reflexivity. }
      apply flt_neither_feq; auto.
      * eapply Hmin2; [apply Hin; exact Hk1|exact Hd1].
      * eapply Hmin1; [apply Hin; exact Hk2|exact Hd2].
    + apply nearest_neighbor_none in H2. destruct H2 as [_ H2].
      rewrite (H2 k1 d1 m1) in Hinf1; [discriminate| |assumption].
      apply Hin. exact Hk1.
    + apply nearest_neighbor_raises in H2.
      destruct H2 as (_ & k & data & Hk & Hr).
      assert (H1' : nearest_neighbor t1 = Raise OverflowError).
      { apply nearest_neighbor_raises. split; [reflexivity|].
        exists k, data. split; [apply Hin; exact Hk|exact Hr]. }
      congruence.
  - destruct (nearest_neighbor t2) as [[[k2 m2]|]|e2] eqn:H2; [| exact I |].
    + destruct (nearest_neighbor_some _ _ _ H2)
        as (l2 & d2 & l2' & Ht2 & Hd2 & Hinf2 & _ & _).
      apply nearest_neighbor_none in H1. destruct H1 as [_ H1].
      rewrite (H1 k2 d2 m2) in Hinf2; [discriminate| |assumption].
      apply Hin. rewrite Ht2. apply in_or_app. right. left. reflexivity.
    + apply nearest_neighbor_raises in H2.
      destruct H2 as (_ & k & data & Hk & Hr).
      apply nearest_neighbor_none in H1. destruct H1 as [H1 _].
      apply (H1 k data); [apply Hin; exact Hk|exact Hr].
  - apply nearest_neighbor_raises in H1.
    destruct H1 as (-> & k & data & Hk & Hr).
    assert (H2 : nearest_neighbor t2 = Raise OverflowError).
    { apply nearest_neighbor_raises. split; [reflexivity|].
      exists k, data. split; [apply Hin; exact Hk|exact Hr]. }
    rewrite H2. reflexivity.
Qed.

(** X11: a record that is not a dictionary (its subscript raises
    [TypeError]) is passed over like a record without a position: the
    selector gives what it gives on the table without it. *)
Theorem selector_skips_non_dict (l1 l2 : dict) (k : string) (data : value) :
  isinstance_dict data = false ->
  record_dist data = Raise TypeError /\
  nearest_neighbor (l1 ++ (k, data) :: l2) = nearest_neighbor (l1 ++ l2).
Proof.
  intros Hnd.
  assert (Hr : record_dist data = Raise TypeError)
    by (destruct data; try reflexivity; discriminate).
  split; [exact Hr|].
  rewrite !nearest_neighbor_loop, !nn_loop_app.
  destruct (nn_loop l1 (None, inf)) as [acc|e]; cbn [bind nn_loop];
    [|reflexivity].
  rewrite (nn_step_skip _ _ _ _ Hr) by discriminate. reflexivity.
Qed.

(** ** Runs of the receiver *)

Section RunFacts.

Variable json_loads : text -> res value.

Lemma main_loop_app (evs1 evs2 : list event) (st : state) :
  main_loop json_loads (evs1 ++ evs2) st =
  match main_loop json_loads evs1 st with
  | Pending st' => main_loop json_loads evs2 st'
  | Exited st' rest => Exited st' (rest ++ evs2)
  | Failed e => Failed e
  end.
Proof.
  revert st; induction evs1 as [|ev evs1 IH]; intros st; [reflexivity|].
  cbn [app main_loop].
  destruct (iteration json_loads ev st) as [st1|st1|e];
    [apply IH|reflexivity|reflexivity].
Qed.

(** Induction along a run: what holds of no events and the first state,
    and is kept by every round that leaves a state, holds of the events
    read and the state reached. *)
Lemma run_invariant (P : list event -> state -> Prop) (evs : list event)
      (st0 : state) :
  P [] st0 ->
  (forall used ev st st',
     P used st -> state_after (iteration json_loads ev st) = Some st' ->
     P (used ++ [ev]) st') ->
  match main_loop json_loads evs st0 with
  | Exited st rest => exists used, evs = used ++ rest /\ P used st
  | Pending st => P evs st
  | Failed _ => True
  end.
Proof.
  revert P st0; induction evs as [|ev evs IH]; intros P st0 H0 Hstep;
    [exact H0|].
  cbn [main_loop].
  destruct (iteration json_loads ev st0) as [st1|st1|e] eqn:Hit; [| |exact I].
  - assert (H1 : P [ev] st1).
    { apply (Hstep [] ev st0 st1 H0). rewrite Hit. reflexivity. }
    specialize (IH (fun used st => P (ev :: used) st) st1 H1).
    cbn beta in IH.
    assert (Hstep' : forall used ev' st st',
               P (ev :: used) st ->
               state_after (iteration json_loads ev' st) = Some st' ->
               P (ev :: used ++ [ev']) st').
    { intros used ev' st st' Hp Hs. exact (Hstep (ev :: used) ev' st st' Hp Hs). }
    specialize (IH Hstep').
    destruct (main_loop json_loads evs st1) as [st rest|st|e']; [| |exact I].
    + destruct IH as (used & -> & Hp). exists (ev :: used). auto.
    + exact IH.
  - exists [ev]. split; [reflexivity|].
    apply (Hstep [] ev st0 st1 H0). rewrite Hit. reflexivity.
Qed.

(** One round, by what the event carries. *)
Lemma iteration_record (ev : event) (st st' : state) :
  state_after (iteration json_loads ev st) = Some st' ->
  match accepted_record json_loads ev with
  | Some (id, record) =>
      neighbors st' = dict_set id record (neighbors st) /\
      exists data now,
        ev = RecvData data now /\
        first_ts st' = Some match first_ts st with
                            | None => now
                            | Some t => t
                            end
  | None => st' = st
  end.
Proof.
  destruct ev as [|data now]; [simpl; intros [= <-]; reflexivity|].
  unfold iteration, accepted_record.
  destruct (parse json_loads data) as [msg|e].
  - destruct (validate msg) as [[[[id pos] speed] ts]|].
    + rewrite store_state. intros [= <-]. split; [reflexivity|].
      exists data, now. split; reflexivity.
    + simpl. intros [= <-]. reflexivity.
  - destruct e; simpl; try discriminate. intros [= <-]. reflexivity.
Qed.

(** X12: at every point of a run from the empty table, the table holds
    for every id the record of the last accepted beacon of that id among
    the events read, and nothing for an id that was never accepted. *)
Theorem table_holds_latest_records (evs : list event) :
  match main_loop json_loads evs initial with
  | Exited st rest =>
      exists used,
        evs = used ++ rest /\
        forall id, dict_get id (neighbors st) = latest json_loads id used
  | Pending st =>
      forall id, dict_get id (neighbors st) = latest json_loads id evs
  | Failed _ => True
  end.
Proof.
  apply (run_invariant
           (fun used st =>
              forall id, dict_get id (neighbors st) = latest json_loads id used)).
  - reflexivity.
  - intros used ev st st' Hp Hs id. apply iteration_record in Hs.
    unfold latest. rewrite fold_left_app. cbn [fold_left].
    fold (latest json_loads id used).
    destruct (accepted_record json_loads ev) as [[id' record]|].
    + destruct Hs as [-> _]. destruct (String.eqb_spec id id') as [->|Hne].
      * apply dict_get_set_same.
      * rewrite dict_get_set_other by congruence. apply Hp.
    + subst st'. apply Hp.
Qed.

(** X13: the table keeps its keys in the order in which the ids were
    first accepted; a later beacon of an id does not move its entry. *)
Theorem table_keeps_first_seen_order (evs : list event) :
  match main_loop json_loads evs initial with
  | Exited st rest =>
      exists used,
        evs = used ++ rest /\
        keys (neighbors st) = first_seen json_loads used
  | Pending st => keys (neighbors st) = first_seen json_loads evs
  | Failed _ => True
  end.
Proof.
  apply (run_invariant
           (fun used st => keys (neighbors st) = first_seen json_loads used)).
  - reflexivity.
  - intros used ev st st' Hp Hs. apply iteration_record in Hs.
    unfold first_seen. rewrite fold_left_app. cbn [fold_left].
    fold (first_seen json_loads used). rewrite <- Hp.
    destruct (accepted_record json_loads ev) as [[id record]|].
    + destruct Hs as [-> _].
      destruct (in_dec string_dec id (keys (neighbors st))) as [Hin|Hnot].
      * apply keys_set_present; assumption.
      * apply keys_set_absent; assumption.
    + subst st'. reflexivity.
Qed.

(** X14: at every point of a run, [first_ts] is the clock reading of the
    round in which the first beacon was accepted, and is unset while none
    was; once set it never changes. *)
Theorem first_ts_is_first_acceptance (evs : list event) :
  match main_loop json_loads evs initial with
  | Exited st rest =>
      exists used,
        evs = used ++ rest /\
        first_ts st = first_accepted_time json_loads used
  | Pending st => first_ts st = first_accepted_time json_loads evs
  | Failed _ => True
  end.
Proof.
  apply (run_invariant
           (fun used st => first_ts st = first_accepted_time json_loads used)).
  - reflexivity.
  - intros used ev st st' Hp Hs. apply iteration_record in Hs.
    unfold first_accepted_time. rewrite fold_left_app. cbn [fold_left].
    fold (first_accepted_time json_loads used). rewrite <- Hp.
    destruct (accepted_record json_loads ev) as [[id record]|] eqn:Ha.
    + destruct Hs as (_ & data & now & -> & ->). rewrite Ha.
      destruct (first_ts st); reflexivity.
    + subst st'. destruct (first_ts st), ev; try rewrite Ha; reflexivity.
Qed.

Lemma iteration_break (ev : event) (st st' : state) :
  iteration json_loads ev st = Break st' ->
  (ev = RecvTimeout /\ st' = st) \/
  exists data now t0,
    ev = RecvData data now /\
    accepted_record json_loads ev <> None /\
    first_ts st' = Some t0 /\ now - t0 >= COLLECT_WINDOW_MS.
Proof.
  destruct ev as [|data now]; [simpl; intros [= <-]; left; auto|].
  unfold iteration, accepted_record.
  destruct (parse json_loads data) as [msg|e].
  - destruct (validate msg) as [[[[id pos] speed] ts]|]; [|discriminate].
    rewrite store_control.
    destruct (_ >=? _) eqn:Hge; [|discriminate].
    intros [= <-]. right.
    exists data, now, (match first_ts st with None => now | Some t => t end).
    repeat split; [discriminate|]. apply Z.geb_le in Hge. lia.
  - destruct e; discriminate.
Qed.

(** X15: the loop ends normally in two ways only: at a socket timeout, or
    at an accepted beacon whose round reads a clock at least 1000 ms after
    [first_ts].  A datagram that is not accepted never ends it, and it
    never ends before the window has elapsed unless the socket goes
    idle. *)
Theorem loop_exit_reasons (evs : list event) (st0 : state) :
  match main_loop json_loads evs st0 with
  | Exited st rest =>
      exists used last,
        evs = used ++ last :: rest /\
        ((last = RecvTimeout) \/
         exists data now t0,
           last = RecvData data now /\
           accepted_record json_loads last <> None /\
           first_ts st = Some t0 /\ now - t0 >= COLLECT_WINDOW_MS)
  | _ => True
  end.
Proof.
  revert st0; induction evs as [|ev evs IH]; intros st0; [exact I|].
  cbn [main_loop].
  destruct (iteration json_loads ev st0) as [st1|st1|e] eqn:Hit; [| |exact I].
  - specialize (IH st1).
    destruct (main_loop json_loads evs st1) as [st rest|st|e']; try exact I.
    destruct IH as (used & last & -> & H).
    exists (ev :: used), last. split; [reflexivity|exact H].
  - exists [], ev. split; [reflexivity|].
    destruct (iteration_break ev st0 st1 Hit) as [[-> _]|H]; [left|right]; auto.
Qed.

Lemma dropped_continues (ev : event) (st : state) :
  dropped json_loads ev -> iteration json_loads ev st = Continue st.
Proof.
  intros (data & now & -> & H). apply malformed_dropped. exact H.
Qed.

(** X16: a dropped datagram leaves no trace: the run with it, wherever it
    arrives, ends as the run without it. *)
Theorem dropped_datagram_leaves_no_trace (evs1 evs2 : list event) (ev : event)
        (final_now : Z) :
  dropped json_loads ev ->
  main json_loads (evs1 ++ ev :: evs2) final_now
  = main json_loads (evs1 ++ evs2) final_now.
Proof.
  intros Hd. unfold main. rewrite !main_loop_app.
  destruct (main_loop json_loads evs1 initial) as [st rest|st|e];
    try reflexivity.
  cbn [main_loop]. rewrite (dropped_continues ev st Hd). reflexivity.
Qed.

(** X17: when every datagram before the socket timeout is dropped, [main]
    prints the summary with count 0 and no nearest vehicle, and returns
    0. *)
Theorem nothing_accepted_prints_empty_summary (evs rest : list event)
        (final_now : Z) :
  Forall (dropped json_loads) evs ->
  main json_loads (evs ++ RecvTimeout :: rest) final_now
  = Printed {| topic := "/v2x/neighbor_summary"; count := 0;
               nearest := None; ts := final_now |} 0.
Proof.
  intros Hd. unfold main. rewrite main_loop_app.
  rewrite (dropped_prefix json_loads evs initial); [reflexivity|].
  eapply Forall_impl; [|exact Hd].
  intros ev Hev. apply dropped_continues. exact Hev.
Qed.

(** X18: a datagram that is not valid UTF-8, read at any point of the
    loop, ends [main] with [UnicodeDecodeError]: no summary is printed,
    whatever was collected before. *)
Theorem invalid_utf8_anywhere_ends_main (evs1 evs2 : list event) (st : state)
        (data : bytes) (now final_now : Z) :
  utf8 data = None ->
  main_loop json_loads evs1 initial = Pending st ->
  main json_loads (evs1 ++ RecvData data now :: evs2) final_now
  = Crashed UnicodeDecodeError.
Proof.
  intros Hu Hp. unfold main. rewrite main_loop_app, Hp.
  cbn [main_loop]. unfold iteration.
  rewrite (parse_invalid_utf8 json_loads data Hu). reflexivity.
Qed.

Lemma dict_get_of_in (d : dict) (k : string) (v : value) :
  NoDup (keys d) -> In (k, v) d -> dict_get k d = Some v.
Proof.
  induction d as [|[k' v'] d IH]; simpl; [intros _ []|].
  intros Hnd [Heq|Hin].
  - injection Heq as -> ->. rewrite String.eqb_refl. reflexivity.
  - inversion Hnd as [|? ? Hnot Hnd']; subst.
    destruct (String.eqb_spec k k') as [->|Hne]; [|apply IH; assumption].
    exfalso. apply Hnot. apply (in_map fst) in Hin. exact Hin.
Qed.

Lemma run_latest (evs : list event) :
  match main_loop json_loads evs initial with
  | Exited st rest =>
      exists used,
        evs = used ++ rest /\
        NoDup (keys (neighbors st)) /\
        forall id, dict_get id (neighbors st) = latest json_loads id used
  | _ => True
  end.
Proof.
  assert (H := run_invariant
           (fun used st =>
              NoDup (keys (neighbors st)) /\
              forall id, dict_get id (neighbors st) = latest json_loads id used)
           evs initial).
  destruct (main_loop json_loads evs initial) as [st rest|st|e]; try exact I.
  apply H.
  - split; [constructor|reflexivity].
  - intros used ev st0 st' [Hnd Hp] Hs. apply iteration_record in Hs.
    unfold latest. split.
    + destruct (accepted_record json_loads ev) as [[id' record]|].
      * destruct Hs as [-> _]. apply keys_set_nodup; assumption.
      * subst st'. assumption.
    + intros id. rewrite fold_left_app. cbn [fold_left].
      fold (latest json_loads id used).
      destruct (accepted_record json_loads ev) as [[id' record]|].
      * destruct Hs as [-> _]. destruct (String.eqb_spec id id') as [->|Hne].
        -- apply dict_get_set_same.
        -- rewrite dict_get_set_other by congruence. apply Hp.
      * subst st'. apply Hp.
Qed.

(** X19: when [main] prints a summary that names a nearest vehicle, the
    loop has ended, and with the events it read (all but the ones it left
    unread) the vehicle's record in the final table is the record of the
    last accepted beacon of that id among them; the distance printed is
    the distance of that record, a number below plus infinity; the count
    is then at least 1. *)
Theorem summary_nearest_is_an_accepted_vehicle (evs : list event)
        (final_now : Z) (s : summary) (status : Z) (k : string) (d : float) :
  main json_loads evs final_now = Printed s status ->
  nearest s = Some (k, d) ->
  exists st rest used record,
    main_loop json_loads evs initial = Exited st rest /\
    evs = used ++ rest /\
    latest json_loads k used = Some record /\
    dict_get k (neighbors st) = Some record /\
    record_dist record = Ok d /\
    flt d inf = true /\
    1 <= count s.
Proof.
  unfold main. intros Hm Hn.
  assert (Hrun := run_latest evs).
  destruct (main_loop json_loads evs initial) as [st rest|st|e];
    try discriminate.
  destruct Hrun as (used & Hevs & Hnd & Hlatest).
  destruct (nearest_neighbor (neighbors st)) as [nn|e] eqn:Hnn;
    [|discriminate].
  injection Hm as <- <-. simpl in Hn. subst nn.
  destruct (nearest_neighbor_some _ _ _ Hnn)
    as (l1 & record & l2 & Ht & Hd & Hinf & _ & _).
  assert (Hget : dict_get k (neighbors st) = Some record).
  { apply dict_get_of_in; [exact Hnd|].
    rewrite Ht. apply in_or_app. right. left. reflexivity. }
  exists st, rest, used, record.
  split; [reflexivity|]. split; [exact Hevs|].
  split; [rewrite <- Hlatest; exact Hget|].
  split; [exact Hget|]. split; [exact Hd|]. split; [exact Hinf|].
  simpl. rewrite Ht, length_app. simpl. lia.
Qed.

Lemma first_ts_kept (evs : list event) (st0 : state) (t : Z) :
  first_ts st0 = Some t ->
  match main_loop json_loads evs st0 with
  | Exited st _ | Pending st => first_ts st = Some t
  | Failed _ => True
  end.
Proof.
  revert st0; induction evs as [|ev evs IH]; intros st0 Ht; [exact Ht|].
  cbn [main_loop].
  destruct (iteration json_loads ev st0) as [st1|st1|e] eqn:Hit; [| |exact I].
  - apply IH.
    assert (Hs : state_after (iteration json_loads ev st0) = Some st1)
      by (rewrite Hit; reflexivity).
    apply iteration_record in Hs.
    destruct (accepted_record json_loads ev) as [[id record]|].
    + destruct Hs as (_ & data & now & _ & ->). rewrite Ht. reflexivity.
    + subst st1. exact Ht.
  - assert (Hs : state_after (iteration json_loads ev st0) = Some st1)
      by (rewrite Hit; reflexivity).
    apply iteration_record in Hs.
    destruct (accepted_record json_loads ev) as [[id record]|].
    + destruct Hs as (_ & data & now & _ & ->). rewrite Ht. reflexivity.
    + subst st1. exact Ht.
Qed.

(** X22: while the loop has not ended, no socket timeout was read and
    every accepted beacon arrived less than 1000 ms (by the receiver's
    clock) after the first one: the loop does not run past the first
    event that ends it. *)
Theorem loop_runs_only_inside_window (evs : list event) (st0 st : state) :
  main_loop json_loads evs st0 = Pending st ->
  Forall
    (fun ev =>
       match ev with
       | RecvTimeout => False
       | RecvData _ now =>
           match accepted_record json_loads ev with
           | Some _ =>
               exists t0, first_ts st = Some t0 /\ now - t0 < COLLECT_WINDOW_MS
           | None => True
           end
       end)
    evs.
Proof.
  revert st0; induction evs as [|ev evs IH]; intros st0 Hp; [constructor|].
  cbn [main_loop] in Hp.
  destruct (iteration json_loads ev st0) as [st1|st1|e] eqn:Hit;
    try discriminate.
  constructor; [|exact (IH st1 Hp)].
  destruct ev as [|data now]; [discriminate|].
  destruct (accepted_record json_loads (RecvData data now))
    as [[id record]|] eqn:Ha; [|exact I].
  unfold iteration in Hit. unfold accepted_record in Ha.
  destruct (parse json_loads data) as [msg|e]; [|discriminate].
  destruct (validate msg) as [[[[id' pos] speed] ts]|]; [|discriminate].
  rewrite store_control in Hit.
  destruct (_ >=? _) eqn:Hge; [discriminate|].
  injection Hit as <-.
  set (t0 := match first_ts st0 with None => now | Some t => t end) in *.
  exists t0. split.
  - assert (Hk := first_ts_kept evs (stored id' pos speed ts now st0) t0
                    eq_refl).
    rewrite Hp in Hk. exact Hk.
  - destruct (Z.geb_spec (now - t0) COLLECT_WINDOW_MS); [discriminate|lia].
Qed.

Lemma pending_first_ts (evs : list event) (st : state) :
  main_loop json_loads evs initial = Pending st ->
  first_ts st = first_accepted_time json_loads evs.
Proof.
  intros Hp.
  assert (H := run_invariant
           (fun used st' =>
              first_ts st' = first_accepted_time json_loads used)
           evs initial).
  rewrite Hp in H. apply H; [reflexivity|].
  intros used ev st0 st' Hinv Hs. apply iteration_record in Hs.
  unfold first_accepted_time. rewrite fold_left_app. cbn [fold_left].
  fold (first_accepted_time json_loads used). rewrite <- Hinv.
  destruct (accepted_record json_loads ev) as [[id record]|] eqn:Ha.
  - destruct Hs as (_ & data & now & -> & ->). rewrite Ha.
    destruct (first_ts st0); reflexivity.
  - subst st'. destruct (first_ts st0), ev; try rewrite Ha; reflexivity.
Qed.

Lemma pending_unchanged (evs : list event) (st0 st : state) :
  main_loop json_loads evs st0 = Pending st ->
  (forall ev, In ev evs -> accepted json_loads ev = None) ->
  st = st0.
Proof.
  revert st0; induction evs as [|ev evs IH]; intros st0 Hp Hnone.
  - simpl in Hp. congruence.
  - cbn [main_loop] in Hp.
    destruct ev as [|data now]; [discriminate|].
    destruct (iteration_not_accepted json_loads data now st0
                (Hnone _ (or_introl eq_refl))) as [Hit|(e & _ & _ & Hit)];
      rewrite Hit in Hp; [|discriminate].
    apply IH; [exact Hp|]. intros ev Hin. apply Hnone. right. exact Hin.
Qed.

(** C3: the window is anchored to the first accepted beacon, not to the
    start of the process.  The run starts with [first_ts] unset.  While
    the loop is running, [first_ts] is the clock reading of the round of
    the first accepted beacon among the datagrams read, and the state is
    still the initial one (so [first_ts] is still unset) when none of them
    was accepted.  When an accepted beacon then arrives in a round whose
    clock reads [now], it is stored, and with [t0] the value of [first_ts]
    if it was set and [now] itself if it was not (whatever timestamp the
    beacon carries): if [now - t0 >= 1000] the loop stops there, reads
    none of the later events, and [main] goes on to the selector and the
    summary; otherwise the loop goes on from the state with
    [first_ts = t0]. *)
Theorem window_anchored_to_first_beacon (evs rest : list event) (st : state)
        (data : bytes) (now final_now : Z) (id : string) :
  main_loop json_loads evs initial = Pending st ->
  accepted json_loads (RecvData data now) = Some id ->
  first_ts initial = None /\
  first_ts st = first_accepted_time json_loads evs /\
  ((forall ev, In ev evs -> accepted json_loads ev = None) -> st = initial) /\
  exists table,
    let t0 := match first_ts st with
              | None => now
              | Some t => t
              end in
    let st' := {| neighbors := table; first_ts := Some t0 |} in
    if now - t0 >=? 1000
    then
      main_loop json_loads (evs ++ RecvData data now :: rest) initial
      = Exited st' rest /\
      main json_loads (evs ++ RecvData data now :: rest) final_now
      = match nearest_neighbor table with
        | Raise e => Crashed e
        | Ok nn =>
            Printed {| topic := "/v2x/neighbor_summary";
                       count := Z.of_nat (List.length table);
                       nearest := nn;
                       ts := final_now |} 0
        end
    else
      main_loop json_loads (evs ++ RecvData data now :: rest) initial
      = main_loop json_loads rest st'.
Proof.
  intros Hp Ha.
  split; [reflexivity|].
  split; [exact (pending_first_ts evs st Hp)|].
  split; [exact (pending_unchanged evs initial st Hp)|].
  destruct (iteration_accepted json_loads data now st id Ha)
    as (msg & pos & speed & ts & _ & _ & Hit).
  exists (dict_set id (mk_record pos speed ts) (neighbors st)).
  cbv zeta.
  assert (Hloop :
    main_loop json_loads (evs ++ RecvData data now :: rest) initial
    = match iteration json_loads (RecvData data now) st with
      | Continue st' => main_loop json_loads rest st'
      | Break st' => Exited st' rest
      | Propagate e => Failed e
      end).
  { rewrite main_loop_app, Hp. reflexivity. }
  unfold main. rewrite Hloop, Hit, store_control.
  unfold stored, COLLECT_WINDOW_MS.
  destruct (now - match first_ts st with
                  | None => now
                  | Some t => t
                  end >=? 1000); [split|]; reflexivity.
Qed.

End RunFacts.

(** ** The validation block *)

(** X20: the validation block reads the four required fields only:
    messages that agree on them are accepted or refused alike, whatever
    other keys they carry and in whatever order. *)
Theorem validation_reads_four_fields (m m' : dict) :
  (forall k, In k required_keys -> dict_get k m = dict_get k m') ->
  validate (PyDict m) = validate (PyDict m').
Proof.
  intros H. unfold validate, contains, required_keys in *. cbn [forallb].
  rewrite (H "id"), (H "pos"), (H "speed"), (H "ts") by (simpl; tauto).
  reflexivity.
Qed.

(** X21: a message in which the position is not a list or tuple of two
    numbers (wrong kind, wrong length, an element that is not a number) is
    refused. *)
Theorem validation_refuses_bad_position (m : dict) (pos : value) :
  dict_get "pos" m = Some pos -> numeric_pair pos = false ->
  validate (PyDict m) = None.
Proof.
  intros Hpos Hbad.
  destruct (validate (PyDict m)) as [[[[key p] speed] ts]|] eqn:Hv;
    [|reflexivity].
  apply validate_some in Hv.
  destruct Hv as (m' & [= <-] & _ & Hp & Hpair & _).
  congruence.
Qed.

(** X23: a message whose timestamp is a float is refused, whatever the
    float (a whole number included): the timestamp is not truncated. *)
Theorem validation_refuses_float_ts (m : dict) (f : float) :
  dict_get "ts" m = Some (PyFloat f) -> validate (PyDict m) = None.
Proof. apply float_ts_refused. Qed.

(** X25: a message with a string id, a two-element list of JSON numbers
    as pos, a JSON number as speed and a JSON integer as ts is accepted
    with exactly these four values, whatever other keys it has. *)
Theorem validation_accepts_wire_format (m : dict) (key : string)
        (x y speed ts : value) :
  dict_get "id" m = Some (PyStr key) ->
  dict_get "pos" m = Some (PyList [x; y]) ->
  dict_get "speed" m = Some speed ->
  dict_get "ts" m = Some ts ->
  json_number x = true -> json_number y = true ->
  json_number speed = true -> json_integer ts = true ->
  validate (PyDict m) = Some (key, PyList [x; y], speed, ts).
Proof. apply wire_format_accepted. Qed.

End Libm.

(** ** Instances *)



Lemma same_id_overwrites_witness :
  exists st2,
    state_after (iteration sample_loads (RecvData wire_2 150)
                   (stored "veh_1" (ipos 3 4) (PyFloat twelve_and_half)
                           (PyInt 1700000000000) 100 initial)) = Some st2 /\
    count_occ string_dec (keys (neighbors st2)) "veh_1" = 1%nat /\
    dict_get "veh_1" (neighbors st2)
    = Some (PyDict [("pos", PyList [PyInt 1; PyInt 1]); ("speed", PyInt 9);
                    ("last_ts", PyInt 1700000000100)]) /\
    keys (neighbors st2) = ["veh_1"] /\
    neighbors st2
    = [("veh_1",
        PyDict [("pos", PyList [PyInt 1; PyInt 1]); ("speed", PyInt 9);
                ("last_ts", PyInt 1700000000100)])] /\
    exists fields,
      msg_2 = PyDict fields /\
      dict_get "id" fields = Some (PyStr "veh_1") /\
      dict_get "pos" fields = Some (PyList [PyInt 1; PyInt 1]) /\
      dict_get "speed" fields = Some (PyInt 9) /\
      dict_get "ts" fields = Some (PyInt 1700000000100).
Proof.
  refine (same_id_overwrites sample_loads initial
            (stored "veh_1" (ipos 3 4) (PyFloat twelve_and_half)
                    (PyInt 1700000000000) 100 initial)
            wire_1 wire_2 100 150
            msg_1 msg_2 "veh_1" (ipos 3 4) (PyFloat twelve_and_half)
            (PyInt 1700000000000) (ipos 1 1) (PyInt 9) (PyInt 1700000000100)
            _ _ _ _ _ _).
  - simpl. constructor.
  - vm_compute. reflexivity.
  - vm_compute. reflexivity.
  - vm_compute. reflexivity.
  - vm_compute. reflexivity.
  - vm_compute. reflexivity.
Defined.




Lemma distance_not_below_zero_witness :
  not_negative five = true /\ flt five (S754_zero false) = false.
Proof.
  apply (distance_not_below_zero rounded_pow2 (ipos (-3) 4) five).
  vm_compute. reflexivity.
Defined.


Lemma selector_sound_witness :
  exists l1 data l2,
    table_ABC = l1 ++ ("B", data) :: l2 /\
    record_dist rounded_pow2 data = Ok sqrt_two /\
    flt sqrt_two inf = true /\
    (forall k' data' d, In (k', data') l1 -> record_dist rounded_pow2 data' = Ok d ->
                        fle d sqrt_two = false) /\
    (forall k' data' d, In (k', data') table_ABC ->
                        record_dist rounded_pow2 data' = Ok d -> flt d sqrt_two = false).
Proof.
  apply (selector_sound rounded_pow2 table_ABC "B" sqrt_two). vm_compute. reflexivity.
Defined.


Lemma selector_complete_witness :
  exists w m, nearest_neighbor rounded_pow2 table_ABC = Ok (Some (w, m)) /\
              flt five m = false.
Proof.
  apply (selector_complete rounded_pow2 table_ABC "A"
           (mk_record (ipos 3 4) (PyInt 12) (PyInt 1700000000000)) five).
  - intros k' data' [H|[H|[H|[]]]]; injection H as <- <-; vm_compute;
      discriminate.
  - left. reflexivity.
  - vm_compute. reflexivity.
  - vm_compute. reflexivity.
Defined.


Lemma selector_order_independent_witness :
  match nearest_neighbor rounded_pow2 table_ABC, nearest_neighbor rounded_pow2 (rev table_ABC) with
  | Ok (Some (_, m1)), Ok (Some (_, m2)) => feq m1 m2 = true
  | Ok None, Ok None => True
  | Raise e1, Raise e2 => e1 = e2
  | _, _ => False
  end.
Proof.
  apply (selector_order_independent rounded_pow2 table_ABC (rev table_ABC)).
  apply Permutation_rev.
Defined.


Lemma selector_skips_non_dict_witness :
  record_dist rounded_pow2 PyNone = Raise TypeError /\
  nearest_neighbor rounded_pow2
    ([("A", mk_record (ipos 3 4) (PyInt 1) (PyInt 1))]
       ++ ("X", PyNone) :: [("B", mk_record (ipos 1 1) (PyInt 1) (PyInt 1))])
  = nearest_neighbor rounded_pow2
      ([("A", mk_record (ipos 3 4) (PyInt 1) (PyInt 1))]
         ++ [("B", mk_record (ipos 1 1) (PyInt 1) (PyInt 1))]).
Proof.
  apply (selector_skips_non_dict rounded_pow2 _ _ "X" PyNone). reflexivity.
Defined.


Lemma dropped_datagram_leaves_no_trace_witness :
  main rounded_pow2 sample_loads
       ([RecvData wire_1 100] ++ RecvData wire_4 200
          :: [RecvData wire_2 1100]) 1234
  = main rounded_pow2 sample_loads ([RecvData wire_1 100] ++ [RecvData wire_2 1100]) 1234.
Proof.
  apply (dropped_datagram_leaves_no_trace rounded_pow2 sample_loads).
  exists wire_4, 200. split; [reflexivity|]. right.
  exists msg_4. split; vm_compute; reflexivity.
Defined.


Lemma nothing_accepted_prints_empty_summary_witness :
  main rounded_pow2 sample_loads
       ([RecvData [x7b] 5; RecvData wire_4 200] ++ RecvTimeout :: []) 1234
  = Printed {| topic := "/v2x/neighbor_summary"; count := 0;
               nearest := None; ts := 1234 |} 0.
Proof.
  apply (nothing_accepted_prints_empty_summary rounded_pow2 sample_loads).
  repeat constructor.
  - exists [x7b], 5. split; [reflexivity|]. left. vm_compute. reflexivity.
  - exists wire_4, 200. split; [reflexivity|]. right.
    exists msg_4. split; vm_compute; reflexivity.
Defined.


Lemma invalid_utf8_anywhere_ends_main_witness :
  main rounded_pow2 sample_loads
       ([RecvData wire_1 100] ++ RecvData [xc3; x28] 300 :: [RecvTimeout]) 1234
  = Crashed UnicodeDecodeError.
Proof.
  apply (invalid_utf8_anywhere_ends_main rounded_pow2 sample_loads _ _
           (stored "veh_1" (ipos 3 4) (PyFloat twelve_and_half)
                   (PyInt 1700000000000) 100 initial)).
  - vm_compute. reflexivity.
  - vm_compute. reflexivity.
Defined.


Lemma summary_nearest_is_an_accepted_vehicle_witness :
  exists st rest used record,
    main_loop sample_loads
              [RecvData wire_1 100; RecvData wire_2 500; RecvTimeout;
               RecvData wire_3 600] initial = Exited st rest /\
    [RecvData wire_1 100; RecvData wire_2 500; RecvTimeout;
     RecvData wire_3 600] = used ++ rest /\
    latest sample_loads "veh_1" used = Some record /\
    dict_get "veh_1" (neighbors st) = Some record /\
    record_dist rounded_pow2 record = Ok sqrt_two /\
    flt sqrt_two inf = true /\
    1 <= 1.
Proof.
  apply (summary_nearest_is_an_accepted_vehicle rounded_pow2 sample_loads
           [RecvData wire_1 100; RecvData wire_2 500; RecvTimeout;
            RecvData wire_3 600] 1234
           {| topic := "/v2x/neighbor_summary"; count := 1;
              nearest := Some ("veh_1", sqrt_two);
              ts := 1234 |} 0).
  - vm_compute. reflexivity.
  - reflexivity.
Defined.


Lemma validation_reads_four_fields_witness :
  validate msg_1
  = validate (PyDict [("note", PyNone); ("ts", PyInt 1700000000000);
                      ("speed", PyFloat twelve_and_half);
                      ("pos", ipos 3 4); ("id", PyStr "veh_1")]).
Proof.
  apply (validation_reads_four_fields
           [("id", PyStr "veh_1"); ("pos", ipos 3 4);
            ("speed", PyFloat twelve_and_half); ("ts", PyInt 1700000000000)]).
  intros k [<-|[<-|[<-|[<-|[]]]]]; reflexivity.
Defined.


Lemma validation_refuses_bad_position_witness :
  validate (beacon "veh_1" (PyList [PyInt 1; PyInt 2; PyInt 3]) (PyInt 1)
                   (PyInt 1)) = None.
Proof.
  apply (validation_refuses_bad_position _ (PyList [PyInt 1; PyInt 2; PyInt 3]));
    reflexivity.
Defined.


Lemma validation_refuses_float_ts_witness :
  validate msg_4 = None.
Proof. apply (validation_refuses_float_ts _ stamp_and_half). reflexivity. Defined.

(** X24: a message that lacks one of the keys id, pos, speed, ts is
    refused. *)
Theorem validation_refuses_missing_key (m : dict) (k : string) :
  In k required_keys -> dict_get k m = None -> validate (PyDict m) = None.
Proof. apply missing_key_refused. Qed.

Lemma validation_refuses_missing_key_witness :
  validate (PyDict [("id", PyStr "veh_1"); ("pos", ipos 3 4);
                    ("ts", PyInt 1700000000000)]) = None.
Proof.
  apply (validation_refuses_missing_key _ "speed"); [simpl; tauto|reflexivity].
Defined.


Lemma validation_accepts_wire_format_witness :
  validate (PyDict [("hops", PyInt 2); ("id", PyStr "veh_1");
                    ("pos", PyList [PyInt 3; PyFloat twelve_and_half]);
                    ("speed", PyInt 9); ("ts", PyInt 1700000000000)])
  = Some ("veh_1", PyList [PyInt 3; PyFloat twelve_and_half], PyInt 9,
          PyInt 1700000000000).
Proof. apply validation_accepts_wire_format; reflexivity. Defined.

(** X26: after any number of dropped datagrams, however long they took,
    the first accepted beacon sets [first_ts] to the clock reading of its
    own round and the loop goes on: the window is not yet over. *)
Theorem window_starts_at_first_accepted_beacon
        (json_loads : text -> res value) (evs : list event) (data : bytes)
        (now : Z) (id : string) :
  Forall (dropped json_loads) evs ->
  accepted json_loads (RecvData data now) = Some id ->
  exists st,
    main_loop json_loads (evs ++ [RecvData data now]) initial = Pending st /\
    first_ts st = Some now.
Proof.
  intros Hd. apply window_opens_at_first_beacon.
  eapply Forall_impl; [|exact Hd].
  intros ev Hev. apply dropped_continues. exact Hev.
Qed.

Lemma window_starts_at_first_accepted_beacon_witness :
  exists st,
    main_loop sample_loads
              ([RecvData [x7b] 5; RecvData wire_4 2000]
                 ++ [RecvData wire_1 2500]) initial = Pending st /\
    first_ts st = Some 2500.
Proof.
  apply (window_starts_at_first_accepted_beacon sample_loads _ wire_1 2500
                                                "veh_1").
  - repeat constructor.
    + exists [x7b], 5. split; [reflexivity|]. left. vm_compute. reflexivity.
    + exists wire_4, 2000. split; [reflexivity|]. right.
      exists msg_4. split; vm_compute; reflexivity.
  - vm_compute. reflexivity.
Defined.


Lemma loop_runs_only_inside_window_witness :
  Forall
    (fun ev =>
       match ev with
       | RecvTimeout => False
       | RecvData _ now =>
           match accepted_record sample_loads ev with
           | Some _ =>
               exists t0,
                 first_ts (stored "veh_1" (ipos 1 1) (PyInt 9)
                                  (PyInt 1700000000100) 1099
                                  (stored "veh_1" (ipos 3 4)
                                          (PyFloat twelve_and_half)
                                          (PyInt 1700000000000) 100 initial))
                 = Some t0 /\ now - t0 < COLLECT_WINDOW_MS
           | None => True
           end
       end)
    [RecvData wire_1 100; RecvData wire_2 1099].
Proof.
  apply (loop_runs_only_inside_window sample_loads _ initial).
  vm_compute. reflexivity.
Defined.

Lemma window_anchored_to_first_beacon_witness :
  first_ts initial = None /\
  first_ts (stored "veh_1" (ipos 3 4) (PyFloat twelve_and_half)
                   (PyInt 1700000000000) 2500 initial)
  = first_accepted_time sample_loads
      [RecvData [x7b] 5; RecvData wire_4 2000; RecvData wire_1 2500] /\
  ((forall ev,
      In ev [RecvData [x7b] 5; RecvData wire_4 2000; RecvData wire_1 2500] ->
      accepted sample_loads ev = None) ->
   stored "veh_1" (ipos 3 4) (PyFloat twelve_and_half)
          (PyInt 1700000000000) 2500 initial = initial) /\
  exists table,
    main_loop sample_loads
              ([RecvData [x7b] 5; RecvData wire_4 2000; RecvData wire_1 2500]
                 ++ RecvData wire_2 3500 :: [RecvData wire_3 3600]) initial
    = Exited {| neighbors := table; first_ts := Some 2500 |}
             [RecvData wire_3 3600] /\
    main rounded_pow2 sample_loads
         ([RecvData [x7b] 5; RecvData wire_4 2000; RecvData wire_1 2500]
            ++ RecvData wire_2 3500 :: [RecvData wire_3 3600]) 4000
    = match nearest_neighbor rounded_pow2 table with
      | Raise e => Crashed e
      | Ok nn =>
          Printed {| topic := "/v2x/neighbor_summary";
                     count := Z.of_nat (List.length table);
                     nearest := nn;
                     ts := 4000 |} 0
      end.
Proof.
  apply (window_anchored_to_first_beacon rounded_pow2 sample_loads
           [RecvData [x7b] 5; RecvData wire_4 2000; RecvData wire_1 2500]
           [RecvData wire_3 3600]
           (stored "veh_1" (ipos 3 4) (PyFloat twelve_and_half)
                   (PyInt 1700000000000) 2500 initial)
           wire_2 3500 4000 "veh_1").
  - vm_compute. reflexivity.
  - vm_compute. reflexivity.
Defined.
